(* ===================================================================== *)
(* Reveal bot: the match registry of src/index.js and its three handlers *)
(* (interactionCreate, messageCreate, the expiry timer callback),        *)
(* embedded as functions over an explicit store, with the platform calls *)
(* they await recorded in a trace and answered by an environment.        *)
(*                                                                       *)
(* A handler is run from its first statement to its last before the next *)
(* event is taken: the properties below are about sequences of requests, *)
(* not about handlers suspended at an [await] while another one runs.    *)
(* The order of the statements inside a handler shows in what a rejected *)
(* call leaves undone.                                                   *)
(* ===================================================================== *)

From Stdlib Require Import NArith Ascii.
From stdpp Require Import gmap strings list fin_maps.

Set Default Proof Using "Type".
Local Open Scope string_scope.
Local Open Scope list_scope.

(* --------------------------------------------------------------------- *)
(* 1. Data                                                               *)
(* --------------------------------------------------------------------- *)

(** A discord.js [User], with the three properties the handlers read. *)
Record user := User { id : string; username : string; bot : bool }.

(** [ChannelType]: the handler tells the two kinds it accepts from the rest. *)
Inductive ChannelType :=
| GuildText | GuildAnnouncement | PublicThread | PrivateThread | GuildForum.

#[global] Instance ChannelType_eq_dec : EqDecision ChannelType.
Proof. solve_decision. Defined.

(** The value type of [matchData] (index.js:15):
    [{ playerA: string|null, playerB: string|null, ids: [idA, idB] }];
    [null] is [None], the array is a list. *)
Record match_data := MatchData {
  playerA : option string;
  playerB : option string;
  ids : list string
}.

(** A chat-input interaction.  [opt_opponent] and [opt_choice] are the
    command options; [options.getUser(name, true)] and
    [options.getString(name, true)] throw when the option is missing. *)
Record interaction := Interaction {
  isChatInputCommand : bool;
  commandName : string;
  inGuild : bool;
  i_user : user;
  i_channelId : string;
  i_channelType : ChannelType;
  isRepliable : bool;
  opt_opponent : option user;
  opt_choice : option string
}.

(** A gateway message. *)
Record message := Message {
  m_id : string;
  author : user;
  m_channelId : string;
  content : string
}.

(** What [EmbedBuilder] collects. *)
Record embed := Embed {
  title : string;
  fields : list (string * string);
  timestamp : N
}.

Inductive payload :=
| Content (s : string)
| Embeds (es : list embed).

(** The platform calls the handlers make, and the console log. *)
Inductive effect :=
| interaction_reply (text : string) (ephemeral : bool)
| interaction_deferReply (ephemeral : bool)
| interaction_editReply (text : string)
| threads_create (parent name : string)
| members_add (thread member : string)
| channel_send (channel : string) (p : payload)
| thread_delete (thread : string)
| msg_delete (channel msg : string)
| console_error (label : string).

(** The world outside the process, for one handler run: the id of the
    thread [threads.create] would return ([None]: the call rejects), which
    of the other calls reject, and the clock read by [new Date()]. *)
Record env := Env {
  new_thread : option string;
  rejects : effect -> bool;
  now : N
}.

(** The process state: the [matchData] map, the armed [setTimeout]
    callbacks (by thread id), the [deferred] flag of the interaction being
    handled, and the calls made so far with whether each one resolved. *)
Record store := Store {
  matchData : gmap string match_data;
  timers : list string;
  deferred : bool;
  trace : list (effect * bool)
}.

Definition set_matchData (f : gmap string match_data -> gmap string match_data)
    (s : store) : store :=
  Store (f (matchData s)) (timers s) (deferred s) (trace s).

Definition set_timers (f : list string -> list string) (s : store) : store :=
  Store (matchData s) (f (timers s)) (deferred s) (trace s).

Definition set_deferred (b : bool) (s : store) : store :=
  Store (matchData s) (timers s) b (trace s).

Definition log (e : effect) (ok : bool) (s : store) : store :=
  Store (matchData s) (timers s) (deferred s) (trace s ++ [(e, ok)]).

(* --------------------------------------------------------------------- *)
(* 2. Control flow of an async handler                                   *)
(* --------------------------------------------------------------------- *)

(** How a piece of handler code ends: it falls through with a value, it
    executes [return], it throws (an awaited call rejected: the enclosing
    [catch] sees it), or it returns a promise that rejects ([return f()]
    without [await]: the enclosing [catch] does not see it). *)
Inductive completion (A : Type) :=
| Normal (a : A)
| Return
| Throw
| Reject.
Arguments Normal {A} a.
Arguments Return {A}.
Arguments Throw {A}.
Arguments Reject {A}.

Definition js (A : Type) : Type := env -> store -> completion A * store.

Definition ret {A} (a : A) : js A := fun _ s => (Normal a, s).

Definition bind {A B} (m : js A) (k : A -> js B) : js B :=
  fun E s =>
    match m E s with
    | (Normal a, s') => k a E s'
    | (Return, s') => (Return, s')
    | (Throw, s') => (Throw, s')
    | (Reject, s') => (Reject, s')
    end.

#[global] Instance js_ret : MRet js := @ret.
#[global] Instance js_bind : MBind js := fun A B k m => bind m k.

Definition skip : js unit := ret tt.
Definition return_ {A} : js A := fun _ s => (Return, s).
Definition throw {A} : js A := fun _ s => (Throw, s).
Definition get_store : js store := fun _ s => (Normal s, s).
Definition modify (f : store -> store) : js unit := fun _ s => (Normal tt, f s).
Definition new_Date : js N := fun E s => (Normal (now E), s).

(** [await f()]: the call is made; if it rejects, the handler throws. *)
Definition await (e : effect) : js unit :=
  fun E s =>
    if rejects E e then (Throw, log e false s) else (Normal tt, log e true s).

(** [return f()]: the call is made and the handler is left; a rejection
    is the handler's own, past every [catch]. *)
Definition return_call {A} (e : effect) : js A :=
  fun E s =>
    if rejects E e then (Reject, log e false s) else (Return, log e true s).

(** [console.error] cannot fail. *)
Definition console (label : string) : js unit :=
  modify (log (console_error label) true).

(** [try { body } catch { handler }]. *)
Definition try_catch {A} (body handler : js A) : js A :=
  fun E s =>
    match body E s with
    | (Throw, s') => handler E s'
    | r => r
    end.

(** [if (c) { body }] with nothing after [else]. *)
Definition when (c : bool) (body : js unit) : js unit :=
  if c then body else skip.

(** [interaction.deferReply]: sets [interaction.deferred] once it resolves. *)
Definition deferReply (ephemeral : bool) : js unit :=
  await (interaction_deferReply ephemeral) ;; modify (set_deferred true).

(** [parentChannel.threads.create]: resolves to the new thread's id. *)
Definition threads_create_call (parent name : string) : js string :=
  fun E s =>
    match new_thread E with
    | Some t => (Normal t, log (threads_create parent name) true s)
    | None => (Throw, log (threads_create parent name) false s)
    end.

(** [matchData.get], [matchData.set], [matchData.delete]. *)
Definition matchData_get (k : string) : js (option match_data) :=
  fun _ s => (Normal (matchData s !! k), s).
Definition matchData_set (k : string) (d : match_data) : js unit :=
  modify (set_matchData (insert k d)).
Definition matchData_delete (k : string) : js unit :=
  modify (set_matchData (delete k)).

(** [setTimeout(cb, 10 * 60 * 1000)] for the callback closed over [thread]. *)
Definition setTimeout (thread : string) : js unit :=
  modify (set_timers (fun ts => ts ++ [thread])).

(** Truthiness of a [string|null]: [null] and the empty string are falsy. *)
Definition truthy (v : option string) : bool :=
  match v with
  | Some (String _ _) => true
  | _ => false
  end.

(** [ids.includes(u)] and [u === ids[i]] on an array of strings. *)
Definition includes (l : list string) (u : string) : bool := bool_decide (u ∈ l).
Definition is_at (l : list string) (i : nat) (u : string) : bool :=
  bool_decide (l !! i = Some u).

(** The [length] of the JavaScript string whose UTF-8 encoding is [s], in
    UTF-16 code units: one for every character of the basic plane (a
    leading byte below F0), two for every character above it, none for a
    continuation byte. *)
Definition utf16_units (c : ascii) : nat :=
  let n := nat_of_ascii c in
  if (n <? 128)%nat then 1
  else if (n <? 192)%nat then 0
  else if (n <? 240)%nat then 1
  else 2.

Fixpoint String_length (s : string) : nat :=
  match s with
  | EmptyString => 0
  | String c s' => utf16_units c + String_length s'
  end.

(** [EmbedBuilder.addFields] of discord.js, a dependency of the bot: it
    throws unless every field has a name of 1 to 256 characters and a
    value of 1 to 1024. *)
Definition text_within (limit : nat) (s : string) : bool :=
  (1 <=? String_length s)%nat && (String_length s <=? limit)%nat.

Definition value_ok (v : string) : bool := text_within 1024 v.

Definition field_ok (f : string * string) : bool :=
  text_within 256 f.1 && value_ok f.2.

Definition addFields (fields : list (string * string)) :
    js (list (string * string)) :=
  if forallb field_ok fields then ret fields else throw.

(** [options.getUser(name, true)], [options.getString(name, true)]. *)
Definition required {A} (o : option A) : js A :=
  match o with
  | Some a => ret a
  | None => throw
  end.

(* --------------------------------------------------------------------- *)
(* 3. The handlers of index.js                                           *)
(* --------------------------------------------------------------------- *)

(** index.js:74-119, the body of [if (commandName === 'startmatch')]. *)
Definition startmatch (i : interaction) : js unit :=
  when (negb (inGuild i))
    (return_call (interaction_reply "Use this in a server." true)) ;;
  deferReply true ;;
  opponent ← required (opt_opponent i) ;
  let starter := i_user i in
  let parentChannel := i_channelId i in
  when (negb (bool_decide (i_channelType i = GuildText))
        && negb (bool_decide (i_channelType i = GuildAnnouncement)))
    (return_call (interaction_editReply
       "Please run /startmatch in a regular text channel (not in a thread/forum).")) ;;
  thread ← try_catch
    (threads_create_call parentChannel
       ("match-" +:+ username starter +:+ "-vs-" +:+ username opponent))
    (console "Thread create failed:" ;;
     return_call (interaction_editReply
       "I could not create a private thread. I may be missing the **Create Private Threads** permission.")) ;
  try_catch (await (members_add thread (id starter))) skip ;;
  try_catch (await (members_add thread (id opponent))) skip ;;
  matchData_set thread (MatchData None None [id starter; id opponent]) ;;
  await (interaction_editReply
    ("Match thread created: <#" +:+ thread +:+ "> (will delete in ~10 minutes)")) ;;
  await (channel_send thread (Content
    ("Welcome <@" +:+ id starter +:+ "> and <@" +:+ id opponent
       +:+ ">! You can type your choice here (I will hide it), or use /submit."))) ;;
  setTimeout thread.

(** index.js:113-118, the callback handed to [setTimeout]. *)
Definition expiry (thread : string) : js unit :=
  try_catch (await (thread_delete thread)) skip ;;
  matchData_delete thread.

(** index.js:121-137, the body of [if (commandName === 'submit')]. *)
Definition submit (i : interaction) : js unit :=
  let threadId := i_channelId i in
  data ← matchData_get threadId ;
  match data with
  | None =>
      return_call (interaction_reply
        "This thread is not a valid match. Use /submit inside the match thread." true)
  | Some data =>
      when (negb (includes (ids data) (id (i_user i))))
        (return_call (interaction_reply
           "Only the two match players can submit here." true)) ;;
      choice ← required (opt_choice i) ;
      let data :=
        if is_at (ids data) 0 (id (i_user i))
        then MatchData (Some choice) (playerB data) (ids data)
        else MatchData (playerA data) (Some choice) (ids data) in
      matchData_set threadId data ;;
      return_call (interaction_reply "Your choice has been recorded (hidden)." true)
  end.

(** index.js:139-160, the body of [if (commandName === 'reveal')]. *)
Definition reveal (i : interaction) : js unit :=
  let threadId := i_channelId i in
  data ← matchData_get threadId ;
  match data with
  | None =>
      return_call (interaction_reply
        "This thread is not a valid match. Make sure you run /reveal inside the match thread."
        true)
  | Some data =>
      when (negb (truthy (playerA data)) || negb (truthy (playerB data)))
        (return_call (interaction_reply
           "Not all players have submitted their choice yet." true)) ;;
      fields ← addFields
        [("Player A", default EmptyString (playerA data));
         ("Player B", default EmptyString (playerB data))] ;
      date ← new_Date ;
      let embed := Embed "Match Reveal" fields date in
      await (channel_send threadId (Embeds [embed])) ;;
      await (interaction_reply "Choices revealed!" true) ;;
      matchData_delete threadId
  end.

(** index.js:161-172, the [catch (err)] block of the interaction handler. *)
Definition recover (i : interaction) : js unit :=
  console "interaction error:" ;;
  when (isRepliable i)
    (try_catch
       (s ← get_store ;
        if deferred s
        then await (interaction_editReply "Unexpected error handling this command.")
        else await (interaction_reply "Unexpected error handling this command." true))
       skip).

(** index.js:70-173. *)
Definition interactionCreate (i : interaction) : js unit :=
  try_catch
    (when (negb (isChatInputCommand i)) return_ ;;
     when (bool_decide (commandName i = "startmatch")) (startmatch i) ;;
     when (bool_decide (commandName i = "submit")) (submit i) ;;
     when (bool_decide (commandName i = "reveal")) (reveal i))
    (recover i).

(** index.js:175-198. *)
Definition messageCreate (msg : message) : js unit :=
  when (bot (author msg)) return_ ;;
  let threadId := m_channelId msg in
  data ← matchData_get threadId ;
  match data with
  | None => return_
  | Some data =>
      when (includes (ids data) (id (author msg)))
        (let data :=
           if is_at (ids data) 0 (id (author msg))
           then MatchData (Some (content msg)) (playerB data) (ids data)
           else if is_at (ids data) 1 (id (author msg))
           then MatchData (playerA data) (Some (content msg)) (ids data)
           else data in
         matchData_set threadId data ;;
         try_catch
           (await (msg_delete threadId (m_id msg)) ;;
            await (channel_send threadId (Content
              (username (author msg) +:+ " has submitted their choice (hidden)."))))
           (console "Failed to delete message:" ;;
            await (channel_send threadId (Content
              (username (author msg) +:+
               " has submitted their choice, but I could not delete their message. Please make sure I have the **Manage Messages** permission.")))))
  end.

(* --------------------------------------------------------------------- *)
(* 4. Events                                                             *)
(* --------------------------------------------------------------------- *)

(** Each event starts from the process state left by the previous one, with
    a fresh interaction (not yet deferred) and an empty trace. *)
Definition fresh (s : store) : store := Store (matchData s) (timers s) false [].

Definition on_interaction (i : interaction) (E : env) (s : store) : store :=
  snd (interactionCreate i E (fresh s)).

Definition on_message (msg : message) (E : env) (s : store) : store :=
  snd (messageCreate msg E (fresh s)).

(** Removes the first occurrence: a timer fires once. *)
Fixpoint disarm (thread : string) (ts : list string) : list string :=
  match ts with
  | [] => []
  | t :: ts => if bool_decide (t = thread) then ts else t :: disarm thread ts
  end.

Definition on_timeout (thread : string) (E : env) (s : store) : store :=
  snd (expiry thread E (set_timers (disarm thread) (fresh s))).

Inductive event :=
| InteractionCreate (i : interaction)
| MessageCreate (msg : message)
| Timeout (thread : string).

Definition dispatch (ev : event) (E : env) (s : store) : store :=
  match ev with
  | InteractionCreate i => on_interaction i E s
  | MessageCreate msg => on_message msg E s
  | Timeout thread => on_timeout thread E s
  end.

(** A timer fires only if it was armed. *)
Definition enabled (ev : event) (s : store) : Prop :=
  match ev with
  | Timeout thread => thread ∈ timers s
  | _ => True
  end.

(** The process starts with an empty map and no timer. *)
Definition initial : store := Store ∅ [] false [].

Inductive reachable : store -> Prop :=
| reachable_initial : reachable initial
| reachable_step s ev E :
    reachable s -> enabled ev s -> reachable (dispatch ev E s).

Fixpoint run (evs : list (event * env)) (s : store) : store :=
  match evs with
  | [] => s
  | (ev, E) :: evs => run evs (dispatch ev E s)
  end.

(* --------------------------------------------------------------------- *)
(* 5. Requests, and the names the specification gives to the replies     *)
(* --------------------------------------------------------------------- *)

(** A [/startmatch] run in a server text channel by [starter] against
    [opponent]. *)
Definition startmatch_request (i : interaction) (starter opponent : user) : Prop :=
  isChatInputCommand i = true ∧ commandName i = "startmatch" ∧
  inGuild i = true ∧ i_user i = starter ∧ opt_opponent i = Some opponent ∧
  (i_channelType i = GuildText ∨ i_channelType i = GuildAnnouncement).

(** The platform defers the reply and creates the thread [c]. *)
Definition creates (E : env) (c : string) : Prop :=
  rejects E (interaction_deferReply true) = false ∧ new_thread E = Some c.

(** A [/submit choice:v] run in channel [c] by the user with id [u]. *)
Definition submit_request (i : interaction) (c u v : string) : Prop :=
  isChatInputCommand i = true ∧ commandName i = "submit" ∧
  i_channelId i = c ∧ id (i_user i) = u ∧ opt_choice i = Some v.

(** A [/reveal] run in channel [c]. *)
Definition reveal_request (i : interaction) (c : string) : Prop :=
  isChatInputCommand i = true ∧ commandName i = "reveal" ∧ i_channelId i = c.

(** The message [msg] carries [v], typed in channel [c] by the user [u]. *)
Definition submit_message (msg : message) (c u v : string) : Prop :=
  m_channelId msg = c ∧ id (author msg) = u ∧ content msg = v.

(** An ephemeral reply, as every [interaction.reply] of index.js is. *)
Definition reply (text : string) : effect := interaction_reply text true.

(** A call with the answer the environment gives it. *)
Definition answered (E : env) (e : effect) : effect * bool := (e, negb (rejects E e)).

(** The calls a run attempted, in order. *)
Definition attempted (s : store) : list effect := (trace s).*1.

(** The outcomes of [SubmissionGate.submit] (specification, 4.2) and the
    reply by which the [/submit] branch reports each of them. *)
Inductive submit_outcome := NoSuchMatch | NotAParticipant | Recorded.

Definition submit_notice (o : submit_outcome) : string :=
  match o with
  | NoSuchMatch =>
      "This thread is not a valid match. Use /submit inside the match thread."
  | NotAParticipant => "Only the two match players can submit here."
  | Recorded => "Your choice has been recorded (hidden)."
  end.

(** The replies of the [/reveal] branch for [NoSuchMatch], [Incomplete]
    and success; the disclosure itself is the embed sent to the channel. *)
Definition reveal_NoSuchMatch : string :=
  "This thread is not a valid match. Make sure you run /reveal inside the match thread.".
Definition reveal_Incomplete : string :=
  "Not all players have submitted their choice yet.".
Definition reveal_done : string := "Choices revealed!".

Definition disclosure (c a b : string) (date : N) : effect :=
  channel_send c (Embeds [Embed "Match Reveal" [("Player A", a); ("Player B", b)] date]).

(** The slot write of index.js:132-133. *)
Definition write_slot (d : match_data) (u v : string) : match_data :=
  if is_at (ids d) 0 u
  then MatchData (Some v) (playerB d) (ids d)
  else MatchData (playerA d) (Some v) (ids d).

(** The event stores a record under [c]: a [/startmatch] for which the
    platform hands out [c] as the id of the new thread. *)
Definition creates_thread (c : string) (ev : event) (E : env) : bool :=
  match ev with
  | InteractionCreate i =>
      isChatInputCommand i && bool_decide (commandName i = "startmatch")
      && bool_decide (new_thread E = Some c)
  | _ => false
  end.

(** The trace of [messageCreate] once the slot is written: it depends on
    the channel, the message id and the author's name, not on the content. *)
Definition scrub_trace (msg : message) (E : env) : list (effect * bool) :=
  let c := m_channelId msg in
  let del := msg_delete c (m_id msg) in
  let hidden := channel_send c (Content
    (username (author msg) +:+ " has submitted their choice (hidden).")) in
  let kept := channel_send c (Content
    (username (author msg) +:+
     " has submitted their choice, but I could not delete their message. Please make sure I have the **Manage Messages** permission.")) in
  if rejects E del
  then [(del, false); (console_error "Failed to delete message:", true);
        answered E kept]
  else if rejects E hidden
  then [(del, true); (hidden, false);
        (console_error "Failed to delete message:", true); answered E kept]
  else [(del, true); (hidden, true)].

(** The same request with another choice; the same message with another
    content. *)
Definition with_choice (v : string) (i : interaction) : interaction :=
  Interaction (isChatInputCommand i) (commandName i) (inGuild i) (i_user i)
    (i_channelId i) (i_channelType i) (isRepliable i) (opt_opponent i) (Some v).

Definition with_content (v : string) (msg : message) : message :=
  Message (m_id msg) (author msg) (m_channelId msg) v.

(** The registry with the slot that [u] writes in the record of [c]
    blanked out. *)
Definition clear_slot (u : string) (d : match_data) : match_data :=
  if is_at (ids d) 0 u
  then MatchData None (playerB d) (ids d)
  else MatchData (playerA d) None (ids d).

Definition redact (c u : string) (m : gmap string match_data) :
    gmap string match_data :=
  alter (clear_slot u) c m.

(** [SubmissionGate.submit] as the specification words it (4.2): no active
    record under the key, [NoSuchMatch]; a submitter who is not one of the
    two participants, [NotAParticipant]; otherwise the value is written
    into the submitter's slot (slot A for the first participant, slot B
    for the second), whatever the slot held, and the outcome is
    [Recorded]. *)
Definition SubmissionGate_submit (m : gmap string match_data) (c u v : string) :
    submit_outcome * gmap string match_data :=
  match m !! c with
  | None => (NoSuchMatch, m)
  | Some d =>
      match ids d with
      | [a; b] =>
          if decide (u = a)
          then (Recorded, <[c := MatchData (Some v) (playerB d) (ids d)]> m)
          else if decide (u = b)
          then (Recorded, <[c := MatchData (playerA d) (Some v) (ids d)]> m)
          else (NotAParticipant, m)
      | _ => (NotAParticipant, m)
      end
  end.

(** What the message path reports of a submission: the announcement when
    it was recorded, nothing otherwise. *)
Definition message_report (o : submit_outcome) (msg : message) (E : env) :
    list (effect * bool) :=
  match o with
  | Recorded => scrub_trace msg E
  | _ => []
  end.

(** The events of a run hand out no thread whose id is [c]: thread ids are
    the platform's, and it does not issue one twice. *)
Definition never_creates (c : string) (evs : list (event * env)) : Prop :=
  Forall (fun p => creates_thread c p.1 p.2 = false) evs.

(* --------------------------------------------------------------------- *)
(* 6. Sample inputs                                                      *)
(* --------------------------------------------------------------------- *)

Definition alice : user := User "1" "alice" false.
Definition bob : user := User "2" "bob" false.
Definition carol : user := User "3" "carol" false.
Definition robot : user := User "2" "bob" true.

(** A slash command typed in a server text channel. *)
Definition slash (name : string) (u : user) (channel : string)
    (opponent : option user) (choice : option string) : interaction :=
  Interaction true name true u channel GuildText true opponent choice.

(** The platform accepts every call and names the next thread [chan1]. *)
Definition quiet : env := Env (Some "chan1") (fun _ => false) 0%N.


(** The platform rejects every [channel.send]. *)
Definition send_rejected : env :=
  Env None (fun e => match e with channel_send _ _ => true | _ => false end) 0%N.

(** alice starts a match against bob; both submit with [/submit]. *)
Definition started : store :=
  on_interaction (slash "startmatch" alice "lobby" (Some bob) None) quiet initial.
Definition one_in : store :=
  on_interaction (slash "submit" alice "chan1" None (Some "X")) quiet started.
Definition both_in : store :=
  on_interaction (slash "submit" bob "chan1" None (Some "Y")) quiet one_in.

(** The platform creates the thread [chan1] and rejects every
    [channel.send]. *)
Definition thread_mute : env :=
  Env (Some "chan1")
    (fun e => match e with channel_send _ _ => true | _ => false end) 0%N.

(** alice starts a match against herself. *)
Definition self_match : store :=
  on_interaction (slash "startmatch" alice "lobby" (Some alice) None) quiet initial.

(** alice starts a match against a bot account. *)
Definition against_robot : store :=
  on_interaction (slash "startmatch" alice "lobby" (Some robot) None) quiet initial.

(** alice posts a message without text (an attachment alone) in the match
    thread, bob submits Y, then [/reveal] is run. *)
Definition empty_then_reveal : store :=
  run [(MessageCreate (Message "m1" alice "chan1" EmptyString), quiet);
       (InteractionCreate (slash "submit" bob "chan1" None (Some "Y")), quiet);
       (InteractionCreate (slash "reveal" alice "chan1" None None), quiet)]
    started.

(* --------------------------------------------------------------------- *)
(* 6a. The slot write of the message path; who may change a record       *)
(* --------------------------------------------------------------------- *)

(** The slot write of index.js:183-187. *)
Definition message_write (d : match_data) (u v : string) : match_data :=
  if is_at (ids d) 0 u
  then MatchData (Some v) (playerB d) (ids d)
  else if is_at (ids d) 1 u
  then MatchData (playerA d) (Some v) (ids d)
  else d.

(** The one key of [matchData] an event can touch: the new thread for
    [/startmatch], the channel of the interaction or of the message, the
    thread of the timer. *)
Definition target (ev : event) (E : env) : option string :=
  match ev with
  | InteractionCreate i =>
      if bool_decide (commandName i = "startmatch")
      then new_thread E
      else Some (i_channelId i)
  | MessageCreate msg => Some (m_channelId msg)
  | Timeout thread => Some thread
  end.

(** The event is a submission typed in channel [c] by the user [u]:
    a [/submit] command, or a message of an account that is not a bot. *)
Definition submission_by (c u : string) (ev : event) : Prop :=
  match ev with
  | InteractionCreate i =>
      isChatInputCommand i = true ∧ commandName i = "submit" ∧
      i_channelId i = c ∧ id (i_user i) = u
  | MessageCreate msg =>
      bot (author msg) = false ∧ m_channelId msg = c ∧ id (author msg) = u
  | Timeout _ => False
  end.

(** The payload is an embed: the only way a stored value leaves the
    process. *)
Definition is_embed (e : effect) : bool :=
  match e with
  | channel_send _ (Embeds _) => true
  | _ => false
  end.

(** The interaction calls whose rejection index.js lets escape: they are
    returned, not awaited. *)
Definition is_interaction_answer (e : effect) : bool :=
  match e with
  | interaction_reply _ _ | interaction_editReply _ => true
  | _ => false
  end.

(* --------------------------------------------------------------------- *)
(* 6b. Start-up: the command table, registerCommands, login              *)
(* --------------------------------------------------------------------- *)

(** What [SlashCommandBuilder] collects (index.js:17-31). *)
Inductive option_kind := UserOption | StringOption.

Record command_option := CommandOption {
  o_kind : option_kind;
  o_name : string;
  o_description : string;
  o_required : bool
}.

Record command := Command {
  c_name : string;
  c_description : string;
  c_options : list command_option
}.

Definition commands : list command :=
  [ Command "startmatch" "Start a new match and create a private reveal thread"
      [CommandOption UserOption "opponent" "Your opponent" true];
    Command "reveal" "Reveal both players’ stored choices in this thread" [];
    Command "submit" "Submit your hidden choice to this match thread"
      [CommandOption StringOption "choice" "Your secret choice" true] ].

(** A string of the environment, as JavaScript has it: the list of its
    UTF-16 code units.  [units] reads the ASCII text of a literal. *)
Abbreviation code_units := (list N).

Definition units (s : string) : code_units :=
  N_of_ascii <$> String.list_ascii_of_string s.

(** The four variables read from [process.env]; [None] is [undefined]. *)
Record process_env := ProcessEnv {
  CLIENT_ID : option code_units;
  MULTI_GUILD_IDS : option code_units;
  GUILD_ID : option code_units;
  DISCORD_TOKEN : option code_units
}.

(** Truthiness of a [string|undefined] of the environment. *)
Definition truthy_units (v : option code_units) : bool :=
  match v with
  | Some (_ :: _) => true
  | _ => false
  end.

(** The code unit of the comma. *)
Definition comma : N := 44.

(** [s.split(sep)] for a one-character separator: never the empty list. *)
Fixpoint String_split (sep : N) (s : code_units) : list code_units :=
  match s with
  | [] => [[]]
  | c :: s' =>
      if N.eqb c sep
      then [] :: String_split sep s'
      else match String_split sep s' with
           | piece :: pieces => (c :: piece) :: pieces
           | [] => [[c]]
           end
  end.

(** [l.join(sep)]. *)
Fixpoint Array_join (sep : N) (l : list code_units) : code_units :=
  match l with
  | [] => []
  | [s] => s
  | s :: l' => s ++ sep :: Array_join sep l'
  end.

(** ECMAScript's WhiteSpace and LineTerminator, which [trim] strips: TAB,
    LF, VT, FF, CR, SP, NBSP, U+1680, U+2000 to U+200A, U+2028, U+2029,
    U+202F, U+205F, U+3000 and U+FEFF.  All of them are single code
    units. *)
Definition WhiteSpace (u : N) : bool :=
  bool_decide (u ∈ [9; 10; 11; 12; 13; 32; 160; 5760; 8232; 8233; 8239; 8287;
                    12288; 65279]%N)
  || (8192 <=? u)%N && (u <=? 8202)%N.

(** [s.trimStart()], [s.trimEnd()], [s.trim()]. *)
Fixpoint trimStart (s : code_units) : code_units :=
  match s with
  | c :: s' => if WhiteSpace c then trimStart s' else s
  | [] => []
  end.

Fixpoint trimEnd (s : code_units) : code_units :=
  match s with
  | c :: s' =>
      match trimEnd s' with
      | [] => if WhiteSpace c then [] else [c]
      | t => c :: t
      end
  | [] => []
  end.

Definition trim (s : code_units) : code_units := trimEnd (trimStart s).

(** index.js:39-42:
    [(MULTI_GUILD_IDS ?? GUILD_ID ?? '').split(',').map(s => s.trim()).filter(Boolean)]. *)
Definition guild_ids (env : process_env) : list code_units :=
  let raw :=
    match MULTI_GUILD_IDS env with
    | Some m => m
    | None => match GUILD_ID env with Some g => g | None => [] end
    end in
  filter (fun s => s ≠ []) (trim <$> String_split comma raw).

(** The calls made while starting up, and the two ways out. *)
Inductive startup_call :=
| rest_put_guild (client guild : code_units) (body : list command)
| rest_put_global (client : code_units) (body : list command)
| console_log (text : string) (args : list code_units)
| client_login (token : option code_units)
| startup_console_error (label : string)
| process_exit (code : nat).

(** index.js:45-48, the [for ... of] loop: it ends at the first [rest.put]
    that rejects.  The boolean tells whether the loop ran to its end. *)
Fixpoint put_guilds (rejected : startup_call -> bool) (client : code_units)
    (gids : list code_units) : list (startup_call * bool) * bool :=
  match gids with
  | [] => ([], true)
  | gid :: gids =>
      let put := rest_put_guild client gid commands in
      if rejected put then ([(put, false)], false)
      else
        let rest := put_guilds rejected client gids in
        ((put, true) :: (console_log "Registered GUILD commands for" [gid], true)
           :: rest.1, rest.2)
  end.

(** index.js:35-53.  The boolean tells whether the promise resolved. *)
Definition registerCommands (env : process_env)
    (rejected : startup_call -> bool) : list (startup_call * bool) * bool :=
  if negb (truthy_units (CLIENT_ID env)) then ([], false)
  else
    let client := default [] (CLIENT_ID env) in
    let gids := guild_ids env in
    if (0 <? length gids)%nat then put_guilds rejected client gids
    else
      let put := rest_put_global client commands in
      if rejected put then ([(put, false)], false)
      else ([(put, true); (console_log "Registered GLOBAL commands" [], true)], true).

(** index.js:200-202:
    [registerCommands().then(() => client.login(TOKEN)).catch(...)]. *)
Definition startup (env : process_env)
    (rejected : startup_call -> bool) : list (startup_call * bool) :=
  let failed :=
    [(startup_console_error "Startup error:", true); (process_exit 1, true)] in
  let registered := registerCommands env rejected in
  if registered.2 then
    let login := client_login (DISCORD_TOKEN env) in
    if rejected login then registered.1 ++ (login, false) :: failed
    else registered.1 ++ [(login, true)]
  else registered.1 ++ failed.

(** The guild and global registrations among the calls of a start-up. *)
Definition put_guild_of (call : startup_call * bool) : option code_units :=
  match call.1 with
  | rest_put_guild _ gid _ => Some gid
  | _ => None
  end.

Definition is_put_global (call : startup_call * bool) : bool :=
  match call.1 with
  | rest_put_global _ _ => true
  | _ => false
  end.

Definition is_login (call : startup_call * bool) : bool :=
  match call.1 with
  | client_login _ => true
  | _ => false
  end.

(** Every code unit of the string is a comma or is stripped by [trim]. *)
Fixpoint blank_list (s : code_units) : bool :=
  match s with
  | [] => true
  | c :: s' => (N.eqb c comma || WhiteSpace c) && blank_list s'
  end.

(** The string has no comma. *)
Fixpoint comma_free (s : code_units) : bool :=
  match s with
  | [] => true
  | c :: s' => negb (N.eqb c comma) && comma_free s'
  end.




(* --------------------------------------------------------------------- *)
(* 7. What each handler does to the store                                *)
(* --------------------------------------------------------------------- *)

Ltac js_unfold :=
  unfold on_interaction, on_message, on_timeout, interactionCreate, recover,
    messageCreate, submit, reveal, startmatch, expiry, deferReply, required,
    addFields,
    matchData_get, matchData_set, matchData_delete, setTimeout, console,
    try_catch, when, await, return_call, return_, skip, throw, modify,
    new_Date, get_store, threads_create_call, mbind, js_bind, bind, mret,
    js_ret, ret, fresh, answered, reply, attempted.

Ltac js_cases :=
  repeat (simpl in *; first [ done | case_match; simplify_eq ]).

Lemma recover_matchData i E s :
  matchData (snd (recover i E s)) = matchData s ∧
  timers (snd (recover i E s)) = timers s.
Proof. js_unfold. js_cases. Qed.

Lemma on_timeout_store thread E s :
  on_timeout thread E s =
    Store (delete thread (matchData s)) (disarm thread (timers s)) false
      [answered E (thread_delete thread)].
Proof. js_unfold. simpl. by destruct (rejects E _). Qed.

Lemma on_interaction_submit i E s c u v :
  submit_request i c u v ->
  on_interaction i E s =
    match matchData s !! c with
    | None =>
        Store (matchData s) (timers s) false
          [answered E (reply (submit_notice NoSuchMatch))]
    | Some d =>
        if includes (ids d) u
        then Store (<[c := write_slot d u v]> (matchData s)) (timers s) false
               [answered E (reply (submit_notice Recorded))]
        else Store (matchData s) (timers s) false
               [answered E (reply (submit_notice NotAParticipant))]
    end.
Proof.
  intros (Hc & Hn & <- & <- & Hv).
  js_unfold. unfold write_slot. rewrite Hc, Hn, Hv. simpl.
  destruct (matchData s !! i_channelId i) as [d|]; simpl.
  - destruct (includes (ids d) (id (i_user i))); simpl;
      destruct (rejects E _); simpl; done.
  - destruct (rejects E _); done.
Qed.

Lemma on_interaction_submit_stranger i E s c d :
  isChatInputCommand i = true -> commandName i = "submit" ->
  i_channelId i = c ->
  matchData s !! c = Some d -> id (i_user i) ∉ ids d ->
  on_interaction i E s =
    Store (matchData s) (timers s) false
      [answered E (reply (submit_notice NotAParticipant))].
Proof.
  intros Hc Hn <- Hd Hu.
  js_unfold. rewrite Hc, Hn. simpl. rewrite Hd.
  unfold includes. rewrite bool_decide_eq_false_2 by done. simpl.
  by destruct (rejects E _).
Qed.

Lemma on_interaction_reveal i E s c :
  reveal_request i c ->
  on_interaction i E s =
    match matchData s !! c with
    | None =>
        Store (matchData s) (timers s) false
          [answered E (reply reveal_NoSuchMatch)]
    | Some d =>
        if negb (truthy (playerA d)) || negb (truthy (playerB d))
        then Store (matchData s) (timers s) false
               [answered E (reply reveal_Incomplete)]
        else if negb (value_ok (default EmptyString (playerA d))
                      && value_ok (default EmptyString (playerB d)))
        then snd (recover i E (Store (matchData s) (timers s) false []))
        else
          let send :=
            disclosure c (default EmptyString (playerA d))
              (default EmptyString (playerB d)) (now E) in
          if rejects E send
          then snd (recover i E
                 (Store (matchData s) (timers s) false [(send, false)]))
          else if rejects E (reply reveal_done)
          then snd (recover i E
                 (Store (matchData s) (timers s) false
                    [(send, true); (reply reveal_done, false)]))
          else Store (delete c (matchData s)) (timers s) false
                 [(send, true); (reply reveal_done, true)]
    end.
Proof.
  intros (Hc & Hn & <-).
  unfold on_interaction, interactionCreate, try_catch, reveal.
  rewrite Hc, Hn. simpl.
  unfold addFields, when, await, return_call, return_, skip, throw,
    matchData_get, matchData_delete, modify, new_Date, mbind, js_bind, bind,
    mret, js_ret, ret, fresh, answered, reply, disclosure, reveal_done,
    reveal_Incomplete, reveal_NoSuchMatch. simpl.
  destruct (matchData s !! i_channelId i) as [d|]; simpl.
  - destruct (negb (truthy (playerA d)) || negb (truthy (playerB d))); simpl.
    + by destruct (rejects E _).
    + unfold field_ok. simpl.
      destruct (value_ok (default EmptyString (playerA d))); simpl; [|done].
      destruct (value_ok (default EmptyString (playerB d))); simpl; [|done].
      destruct (rejects E (channel_send _ _)); simpl; [done|].
      by destruct (rejects E (interaction_reply _ _)).
  - by destruct (rejects E _).
Qed.

Lemma on_message_store msg E s :
  on_message msg E s =
    if bot (author msg) then fresh s
    else
      match matchData s !! m_channelId msg with
      | None => fresh s
      | Some d =>
          if includes (ids d) (id (author msg))
          then
            Store
              (<[m_channelId msg :=
                   if is_at (ids d) 0 (id (author msg))
                   then MatchData (Some (content msg)) (playerB d) (ids d)
                   else if is_at (ids d) 1 (id (author msg))
                   then MatchData (playerA d) (Some (content msg)) (ids d)
                   else d]> (matchData s))
              (timers s) false (scrub_trace msg E)
          else fresh s
      end.
Proof.
  js_unfold. unfold scrub_trace, answered. simpl.
  destruct (bot (author msg)); simpl; [done|].
  destruct (matchData s !! m_channelId msg) as [d|]; simpl; [|done].
  destruct (includes (ids d) (id (author msg))); simpl; [|done].
  destruct (rejects E (msg_delete _ _)); simpl.
  - by destruct (rejects E _).
  - destruct (rejects E (channel_send _ (Content (_ +:+ " has submitted their choice (hidden)."))));
      simpl; [|done].
    by destruct (rejects E _).
Qed.

Lemma scrub_trace_nonempty msg E : scrub_trace msg E ≠ [].
Proof. unfold scrub_trace. by repeat case_match. Qed.

(** On a two-element array the [else if] of the message path is the
    [else] of the command path. *)
Lemma message_write_slot (d : match_data) (u v : string) :
  length (ids d) = 2 -> u ∈ ids d ->
  (if is_at (ids d) 0 u then MatchData (Some v) (playerB d) (ids d)
   else if is_at (ids d) 1 u then MatchData (playerA d) (Some v) (ids d)
   else d) = write_slot d u v.
Proof.
  intros Hlen Hu. unfold write_slot, is_at.
  destruct (ids d) as [|a [|b [|]]]; simplify_eq/=.
  repeat case_bool_decide; simplify_eq/=; try done.
  apply elem_of_cons in Hu as [->|Hu]; [done|].
  apply elem_of_cons in Hu as [->|Hu]; [done|].
  by apply elem_of_nil in Hu.
Qed.

Lemma on_interaction_startmatch i E s starter opponent c :
  startmatch_request i starter opponent -> creates E c ->
  matchData (on_interaction i E s) =
    <[c := MatchData None None [id starter; id opponent]]> (matchData s).
Proof.
  intros (Hc & Hn & Hg & <- & Ho & Hty) [Hdefer Hnew].
  js_unfold. rewrite Hc, Hn, Hg, Ho. simpl. rewrite Hdefer, Hnew. simpl.
  assert (negb (bool_decide (i_channelType i = GuildText))
          && negb (bool_decide (i_channelType i = GuildAnnouncement)) = false)
    as -> by (destruct Hty as [-> | ->]; done).
  simpl. js_cases.
Qed.

Lemma on_interaction_startmatch_cases i E s :
  commandName i = "startmatch" ->
  matchData (on_interaction i E s) = matchData s ∨
  ∃ c opponent,
    isChatInputCommand i = true ∧ new_thread E = Some c ∧
    matchData (on_interaction i E s) =
      <[c := MatchData None None [id (i_user i); id opponent]]> (matchData s).
Proof.
  intros Hn. destruct (isChatInputCommand i) eqn:Hc; last first.
  { left. js_unfold. by rewrite Hc. }
  js_unfold. rewrite Hc, Hn. simpl.
  destruct (negb (inGuild i)); simpl.
  { left. js_cases. }
  destruct (rejects E (interaction_deferReply true)); simpl.
  { left. js_cases. }
  destruct (opt_opponent i) as [o|]; simpl; [|left; js_cases].
  destruct (negb (bool_decide (i_channelType i = GuildText))
            && negb (bool_decide (i_channelType i = GuildAnnouncement))); simpl.
  { left. js_cases. }
  destruct (new_thread E) as [c|]; simpl; [|left; js_cases].
  right. exists c, o. split; [done|]. split; [done|]. js_cases.
Qed.

Lemma on_interaction_other i E s :
  isChatInputCommand i = false ∨
  (commandName i ≠ "startmatch" ∧ commandName i ≠ "submit" ∧
   commandName i ≠ "reveal") ->
  on_interaction i E s = fresh s.
Proof.
  intros [Hc | (H1 & H2 & H3)]; js_unfold.
  - by rewrite Hc.
  - rewrite !bool_decide_eq_false_2 by done. simpl. by destruct (negb _).
Qed.

Lemma on_interaction_submit_matchData i E s :
  commandName i = "submit" ->
  matchData (on_interaction i E s) = matchData s ∨
  ∃ d v,
    matchData s !! i_channelId i = Some d ∧
    matchData (on_interaction i E s) =
      <[i_channelId i := write_slot d (id (i_user i)) v]> (matchData s).
Proof.
  intros Hn. destruct (isChatInputCommand i) eqn:Hc; last first.
  { left. rewrite on_interaction_other by auto. done. }
  destruct (opt_choice i) as [v|] eqn:Hv.
  - rewrite (on_interaction_submit i E s (i_channelId i) (id (i_user i)) v)
      by done.
    destruct (matchData s !! i_channelId i) as [d|]; [|by left].
    destruct (includes _ _); [|by left]. right. by exists d, v.
  - left. js_unfold. rewrite Hc, Hn, Hv. simpl. js_cases.
Qed.

Lemma on_interaction_reveal_matchData i E s :
  commandName i = "reveal" ->
  matchData (on_interaction i E s) = matchData s ∨
  matchData (on_interaction i E s) = delete (i_channelId i) (matchData s).
Proof.
  intros Hn. destruct (isChatInputCommand i) eqn:Hc; last first.
  { left. rewrite on_interaction_other by auto. done. }
  rewrite (on_interaction_reveal i E s (i_channelId i)) by done.
  destruct (matchData s !! i_channelId i) as [d|]; [|by left].
  destruct (_ || _); [by left|].
  destruct (negb _); [left; by rewrite (proj1 (recover_matchData _ _ _))|].
  simpl.
  destruct (rejects E _); [left; by rewrite (proj1 (recover_matchData _ _ _))|].
  destruct (rejects E _); [left; by rewrite (proj1 (recover_matchData _ _ _))|].
  by right.
Qed.

Lemma write_slot_ids d u v : ids (write_slot d u v) = ids d.
Proof. unfold write_slot. by destruct (is_at _ _ _). Qed.

(** A record found after an event was there before with the same [ids],
    or the event has just created it with a two-element [ids]. *)
Lemma dispatch_lookup ev E s c d' :
  matchData (dispatch ev E s) !! c = Some d' ->
  (∃ d, matchData s !! c = Some d ∧ ids d' = ids d) ∨
  (creates_thread c ev E = true ∧ ∃ a b, ids d' = [a; b]).
Proof.
  destruct ev as [i | msg | thread]; simpl.
  - destruct (decide (commandName i = "startmatch")) as [Hn|Hn1].
    { destruct (on_interaction_startmatch_cases i E s Hn)
        as [-> | (k & o & Hc & Hnew & ->)]; [eauto|].
      destruct (decide (k = c)) as [->|Hne].
      - rewrite lookup_insert_eq. intros [= <-]. right. split; [|by eauto].
        rewrite Hc, Hn, Hnew. simpl. by rewrite !bool_decide_eq_true_2.
      - rewrite lookup_insert_ne by done. eauto. }
    destruct (decide (commandName i = "submit")) as [Hn|Hn2].
    { destruct (on_interaction_submit_matchData i E s Hn)
        as [-> | (d & v & Hd & ->)]; [eauto|].
      destruct (decide (i_channelId i = c)) as [<-|Hne].
      - rewrite lookup_insert_eq. intros [= <-]. left. exists d.
        by rewrite write_slot_ids.
      - rewrite lookup_insert_ne by done. eauto. }
    destruct (decide (commandName i = "reveal")) as [Hn|Hn3].
    { destruct (on_interaction_reveal_matchData i E s Hn) as [-> | ->];
        [eauto|].
      intros [_ Hd]%lookup_delete_Some. eauto. }
    rewrite on_interaction_other by auto. simpl. eauto.
  - rewrite on_message_store.
    destruct (bot (author msg)); [simpl; by eauto|].
    destruct (matchData s !! m_channelId msg) as [d|] eqn:Hd; [|simpl; by eauto].
    destruct (includes _ _); [|simpl; by eauto]. simpl.
    destruct (decide (m_channelId msg = c)) as [<-|Hne].
    + rewrite lookup_insert_eq. intros [= <-]. left. exists d. split; [done|].
      by repeat case_match.
    + rewrite lookup_insert_ne by done. eauto.
  - rewrite on_timeout_store. simpl.
    intros [_ Hd]%lookup_delete_Some. eauto.
Qed.

(** Every record of a reachable store has a two-element [ids] array. *)
Lemma reachable_ids_length s c d :
  reachable s -> matchData s !! c = Some d -> length (ids d) = 2.
Proof.
  intros Hr. revert c d.
  induction Hr as [|s ev E Hr IH Hen]; intros c d.
  - simpl. by rewrite lookup_empty.
  - intros [(d0 & Hd0 & ->) | (_ & a & b & ->)]%dispatch_lookup; eauto.
Qed.

Lemma includes_first a b : includes [a; b] a = true.
Proof. unfold includes. apply bool_decide_eq_true_2, list_elem_of_here. Qed.

Lemma includes_second a b : includes [a; b] b = true.
Proof.
  unfold includes. apply bool_decide_eq_true_2, list_elem_of_further,
    list_elem_of_here.
Qed.

Lemma is_at_first a b : is_at [a; b] 0 a = true.
Proof. unfold is_at. by apply bool_decide_eq_true_2. Qed.

Lemma is_at_second a b : a ≠ b -> is_at [a; b] 0 b = false.
Proof. intros Hne. unfold is_at. apply bool_decide_eq_false_2. simpl. congruence. Qed.

(* --------------------------------------------------------------------- *)
(* 8. The properties of the specification                                *)
(* --------------------------------------------------------------------- *)

(** C1. End-to-end scenario.  On a channel key [c] with no record, for
    participants with distinct ids: after [/startmatch] has created the
    match under [c] and P1 has submitted X, [/reveal] answers Incomplete
    and the record stays, holding X in slot A and nothing in slot B; after
    P2 has submitted Y, a [/reveal] whose two calls the platform accepts
    sends the pair (X, Y) in slot order to the channel and removes the
    record; the next [/reveal] answers NoSuchMatch. *)
Theorem C1_end_to_end c P1 P2 s iC iS1 iR1 iS2 iR2 iR3 E0 E1 E2 E3 E4 E5 :
  matchData s !! c = None ->
  id P1 ≠ id P2 ->
  startmatch_request iC P1 P2 -> creates E0 c ->
  submit_request iS1 c (id P1) "X" -> reveal_request iR1 c ->
  submit_request iS2 c (id P2) "Y" -> reveal_request iR2 c ->
  reveal_request iR3 c ->
  rejects E4 (disclosure c "X" "Y" (now E4)) = false ->
  rejects E4 (reply reveal_done) = false ->
  let s1 := on_interaction iC E0 s in
  let s2 := on_interaction iS1 E1 s1 in
  let s3 := on_interaction iR1 E2 s2 in
  let s4 := on_interaction iS2 E3 s3 in
  let s5 := on_interaction iR2 E4 s4 in
  let s6 := on_interaction iR3 E5 s5 in
  matchData s1 !! c = Some (MatchData None None [id P1; id P2]) ∧
  attempted s2 = [reply (submit_notice Recorded)] ∧
  attempted s3 = [reply reveal_Incomplete] ∧
  matchData s3 !! c = Some (MatchData (Some "X") None [id P1; id P2]) ∧
  attempted s4 = [reply (submit_notice Recorded)] ∧
  trace s5 = [(disclosure c "X" "Y" (now E4), true); (reply reveal_done, true)] ∧
  matchData s5 !! c = None ∧
  attempted s6 = [reply reveal_NoSuchMatch] ∧
  matchData s6 !! c = None.
Proof.
  intros Hfresh Hne HC Hcr HS1 HR1 HS2 HR2 HR3 Hsend Hreply s1 s2 s3 s4 s5 s6.
  assert (matchData s1 !! c = Some (MatchData None None [id P1; id P2])) as H1.
  { unfold s1. rewrite (on_interaction_startmatch _ _ _ _ _ _ HC Hcr).
    apply lookup_insert_eq. }
  assert (matchData s2 !! c = Some (MatchData (Some "X") None [id P1; id P2])
          ∧ attempted s2 = [reply (submit_notice Recorded)]) as [H2 T2].
  { unfold s2. rewrite (on_interaction_submit _ _ _ _ _ _ HS1), H1. simpl.
    rewrite includes_first. unfold write_slot. simpl. rewrite is_at_first.
    split; [apply lookup_insert_eq | done]. }
  assert (matchData s3 = matchData s2
          ∧ attempted s3 = [reply reveal_Incomplete]) as [H3 T3].
  { unfold s3. by rewrite (on_interaction_reveal _ _ _ _ HR1), H2. }
  assert (matchData s4 !! c
            = Some (MatchData (Some "X") (Some "Y") [id P1; id P2])
          ∧ attempted s4 = [reply (submit_notice Recorded)]) as [H4 T4].
  { unfold s4. rewrite (on_interaction_submit _ _ _ _ _ _ HS2), H3, H2. simpl.
    rewrite includes_second. unfold write_slot. simpl.
    rewrite (is_at_second _ _ Hne).
    split; [apply lookup_insert_eq | done]. }
  assert (s5 = Store (delete c (matchData s4)) (timers s4) false
                 [(disclosure c "X" "Y" (now E4), true);
                  (reply reveal_done, true)]) as H5.
  { unfold s5. rewrite (on_interaction_reveal _ _ _ _ HR2), H4. simpl.
    by rewrite Hsend, Hreply. }
  assert (matchData s5 !! c = None) as H5'.
  { rewrite H5. apply lookup_delete_eq. }
  assert (s6 = Store (matchData s5) (timers s5) false
                 [answered E5 (reply reveal_NoSuchMatch)]) as H6.
  { unfold s6. by rewrite (on_interaction_reveal _ _ _ _ HR3), H5'. }
  repeat split; try done.
  - by rewrite H3.
  - by rewrite H5.
  - by rewrite H6.
  - by rewrite H6.
Qed.

Ltac by_evaluation :=
  repeat split;
  solve [ reflexivity | discriminate | left; reflexivity
        | vm_compute; reflexivity | vm_compute; discriminate ].

(** Discharges the premises of [H] one after the other by evaluation. *)
Ltac premises H :=
  repeat (lapply H; [clear H; intros H | by_evaluation]).

(** C1 on the sample match of alice and bob. *)
Lemma C1_end_to_end_witness :
  attempted
    (on_interaction (slash "reveal" alice "chan1" None None) quiet one_in)
    = [reply reveal_Incomplete] ∧
  matchData
    (on_interaction (slash "reveal" bob "chan1" None None) quiet
       (on_interaction (slash "submit" bob "chan1" None (Some "Y")) quiet
          (on_interaction (slash "reveal" alice "chan1" None None) quiet
             one_in))) !! "chan1" = None.
Proof.
  pose proof (C1_end_to_end "chan1" alice bob initial
                (slash "startmatch" alice "lobby" (Some bob) None)
                (slash "submit" alice "chan1" None (Some "X"))
                (slash "reveal" alice "chan1" None None)
                (slash "submit" bob "chan1" None (Some "Y"))
                (slash "reveal" bob "chan1" None None)
                (slash "reveal" alice "chan1" None None)
                quiet quiet quiet quiet quiet quiet) as H.
  premises H.
  destruct H as (_ & _ & Hincomplete & _ & _ & _ & Hgone & _).
  exact (conj Hincomplete Hgone).
Defined.

Lemma recover_trace i E s :
  trace (snd (recover i E s)) =
    trace s ++ (console_error "interaction error:", true) ::
      (if isRepliable i
       then [answered E
               (if deferred s
                then interaction_editReply "Unexpected error handling this command."
                else reply "Unexpected error handling this command.")]
       else []).
Proof. js_unfold. js_cases; unfold log; simpl; by rewrite <- ?app_assoc. Qed.

(** C2 as stated does not hold: with both values submitted, a
    [/reveal] whose [channel.send] the platform rejects leaves the record
    in [matchData], values and all. *)
Lemma C2_counterexample :
  matchData
    (on_interaction (slash "reveal" alice "chan1" None None) send_rejected
       both_in) !! "chan1"
    = Some (MatchData (Some "X") (Some "Y") ["1"; "2"]) ∧
  trace
    (on_interaction (slash "reveal" alice "chan1" None None) send_rejected
       both_in)
    = [(disclosure "chan1" "X" "Y" 0, false);
       (console_error "interaction error:", true);
       (reply "Unexpected error handling this command.", true)].
Proof. split; vm_compute; reflexivity. Qed.

(** C2, amended.  The expiry path is as stated: the record is removed
    independently of the channel deletion, whatever [thread.delete]
    answers.  The reveal path does not remove the record before the
    disclosure: on a record with both values present, when the embed
    builder accepts the values and the platform accepts the disclosure and
    the answer to the requester, the record is removed; when the platform
    rejects the disclosure, or the builder refuses a value (more than 1024
    characters), the registry is left as it was, the record still present,
    and no message has reached a channel. *)
Theorem C2_retire_after_effects i E s c d thread Et :
  reveal_request i c ->
  matchData s !! c = Some d ->
  truthy (playerA d) = true -> truthy (playerB d) = true ->
  let a := default EmptyString (playerA d) in
  let b := default EmptyString (playerB d) in
  let send := disclosure c a b (now E) in
  let s' := on_interaction i E s in
  (matchData (on_timeout thread Et s) = delete thread (matchData s) ∧
   trace (on_timeout thread Et s) = [answered Et (thread_delete thread)]) ∧
  (value_ok a && value_ok b = true ->
   rejects E send = false -> rejects E (reply reveal_done) = false ->
   matchData s' = delete c (matchData s) ∧
   trace s' = [(send, true); (reply reveal_done, true)]) ∧
  (value_ok a && value_ok b = true ->
   rejects E send = true ->
   matchData s' = matchData s ∧
   head (trace s') = Some (send, false) ∧
   ∀ channel p, (channel_send channel p, true) ∉ trace s') ∧
  (value_ok a && value_ok b = false ->
   matchData s' = matchData s ∧
   ∀ channel p ok, (channel_send channel p, ok) ∉ trace s').
Proof.
  intros Hr Hd HA HB a b send s'. split; [|split; [|split]].
  - by rewrite on_timeout_store.
  - intros Hok Hsend Hreply. unfold s'.
    rewrite (on_interaction_reveal _ _ _ _ Hr), Hd, HA, HB. simpl.
    fold a b. rewrite Hok. simpl. fold send. by rewrite Hsend, Hreply.
  - intros Hok Hsend. unfold s'.
    rewrite (on_interaction_reveal _ _ _ _ Hr), Hd, HA, HB. simpl.
    fold a b. rewrite Hok. simpl. fold send. rewrite Hsend.
    rewrite (proj1 (recover_matchData _ _ _)), recover_trace. simpl.
    split; [done|]. split; [done|].
    intros channel p Hin.
    apply elem_of_cons in Hin as [[=]|Hin].
    apply elem_of_cons in Hin as [[=]|Hin].
    destruct (isRepliable i); simpl in Hin.
    + apply elem_of_cons in Hin as [[=]|Hin]. by apply elem_of_nil in Hin.
    + by apply elem_of_nil in Hin.
  - intros Hok. unfold s'.
    rewrite (on_interaction_reveal _ _ _ _ Hr), Hd, HA, HB. simpl.
    fold a b. rewrite Hok. simpl.
    rewrite (proj1 (recover_matchData _ _ _)), recover_trace. simpl.
    split; [done|].
    intros channel p ok Hin.
    apply elem_of_cons in Hin as [[=]|Hin].
    destruct (isRepliable i); simpl in Hin.
    + apply elem_of_cons in Hin as [[=]|Hin]. by apply elem_of_nil in Hin.
    + by apply elem_of_nil in Hin.
Qed.

(** The remaining case of [/reveal]: the disclosure is sent and the answer
    to the requester is rejected.  The handler throws before it reaches
    [matchData.delete], so the record outlives its disclosure. *)
Lemma reveal_reply_rejected i E s c d :
  reveal_request i c ->
  matchData s !! c = Some d ->
  truthy (playerA d) = true -> truthy (playerB d) = true ->
  value_ok (default EmptyString (playerA d))
    && value_ok (default EmptyString (playerB d)) = true ->
  rejects E (disclosure c (default EmptyString (playerA d))
               (default EmptyString (playerB d)) (now E)) = false ->
  rejects E (reply reveal_done) = true ->
  matchData (on_interaction i E s) = matchData s.
Proof.
  intros Hr Hd HA HB Hok Hsend Hreply.
  rewrite (on_interaction_reveal _ _ _ _ Hr), Hd, HA, HB. simpl.
  rewrite Hok. simpl. rewrite Hsend, Hreply. by rewrite (proj1 (recover_matchData _ _ _)).
Qed.

(** C2, amended, on the sample match: an accepted [/reveal] and an expiry
    whose [thread.delete] is rejected both remove the record. *)
Lemma C2_retire_after_effects_witness :
  matchData (on_interaction (slash "reveal" alice "chan1" None None) quiet both_in)
    = delete "chan1" (matchData both_in) ∧
  matchData (on_timeout "chan1" send_rejected both_in)
    = delete "chan1" (matchData both_in).
Proof.
  pose proof (C2_retire_after_effects
                (slash "reveal" alice "chan1" None None) quiet both_in "chan1"
                (MatchData (Some "X") (Some "Y") ["1"; "2"]) "chan1"
                send_rejected) as H.
  premises H. cbv zeta in H.
  destruct H as ([Hexpiry _] & Hreveal & _).
  premises Hreveal.
  destruct Hreveal as [Hgone _].
  exact (conj Hgone Hexpiry).
Defined.

Lemma submit_request_with_choice i v :
  isChatInputCommand i = true -> commandName i = "submit" ->
  submit_request (with_choice v i) (i_channelId i) (id (i_user i)) v.
Proof. by intros Hc Hn. Qed.

Lemma on_interaction_with_choice i v1 v2 E s :
  isChatInputCommand i = false ∨ commandName i ≠ "submit" ->
  on_interaction (with_choice v1 i) E s = on_interaction (with_choice v2 i) E s.
Proof.
  intros [Hc | Hn].
  - by rewrite !on_interaction_other by (by left).
  - js_unfold. simpl. by rewrite (bool_decide_eq_false_2 _ Hn).
Qed.

Lemma clear_write_slot u d v : clear_slot u (write_slot d u v) = clear_slot u d.
Proof. unfold clear_slot, write_slot. by destruct (is_at (ids d) 0 u) eqn:H; simpl; rewrite H. Qed.

(** C3. A submission's value does not show before reveal.  Two [/submit]
    requests that differ in the choice alone, handled from the same state
    under the same platform answers, leave the same trace of calls; so do
    two messages that differ in the content alone.  The two resulting
    stores differ at most in the slot the submitter writes. *)
Theorem C3_value_hidden (i : interaction) (msg : message) (v1 v2 : string)
    (E : env) (s : store) :
  (trace (on_interaction (with_choice v1 i) E s)
     = trace (on_interaction (with_choice v2 i) E s) ∧
   timers (on_interaction (with_choice v1 i) E s)
     = timers (on_interaction (with_choice v2 i) E s) ∧
   redact (i_channelId i) (id (i_user i))
       (matchData (on_interaction (with_choice v1 i) E s))
     = redact (i_channelId i) (id (i_user i))
         (matchData (on_interaction (with_choice v2 i) E s))) ∧
  (trace (on_message (with_content v1 msg) E s)
     = trace (on_message (with_content v2 msg) E s) ∧
   timers (on_message (with_content v1 msg) E s)
     = timers (on_message (with_content v2 msg) E s) ∧
   redact (m_channelId msg) (id (author msg))
       (matchData (on_message (with_content v1 msg) E s))
     = redact (m_channelId msg) (id (author msg))
         (matchData (on_message (with_content v2 msg) E s))).
Proof.
  split.
  - destruct (isChatInputCommand i) eqn:Hc;
      [|by rewrite (on_interaction_with_choice i v1 v2) by auto].
    destruct (decide (commandName i = "submit")) as [Hn|Hn];
      [|by rewrite (on_interaction_with_choice i v1 v2) by auto].
    rewrite !(on_interaction_submit _ _ _ _ _ _
                (submit_request_with_choice i _ Hc Hn)).
    destruct (matchData s !! i_channelId i) as [d|]; [|done].
    destruct (includes _ _); [|done]. simpl.
    split; [done|]. split; [done|].
    unfold redact. by rewrite !alter_insert_eq, !clear_write_slot.
  - rewrite !on_message_store. simpl.
    destruct (bot (author msg)); [done|].
    destruct (matchData s !! m_channelId msg) as [d|]; [|done].
    destruct (includes _ _); [|done]. simpl.
    split; [done|]. split; [done|].
    unfold redact. rewrite !alter_insert_eq. f_equal.
    unfold clear_slot.
    destruct (is_at (ids d) 0 (id (author msg))) eqn:H0; simpl;
      [by rewrite H0|].
    destruct (is_at (ids d) 1 (id (author msg))); simpl; by rewrite H0.
Qed.

(** C4, on the code.  alice's message carries the empty string, bob
    submits Y: both slots hold a submitted value, and [/reveal] still
    answers Incomplete and keeps the record. *)
Theorem C4_empty_value_reads_as_absent :
  matchData empty_then_reveal !! "chan1"
    = Some (MatchData (Some EmptyString) (Some "Y") ["1"; "2"]) ∧
  trace empty_then_reveal = [(reply reveal_Incomplete, true)].
Proof. split; vm_compute; reflexivity. Qed.

Lemma elem_of_pair (u a b : string) : u ∈ [a; b] ↔ u = a ∨ u = b.
Proof.
  rewrite !elem_of_cons, elem_of_nil. intuition.
Qed.

Lemma SubmissionGate_submit_refined m c u v d :
  m !! c = Some d -> length (ids d) = 2 ->
  SubmissionGate_submit m c u v =
    if includes (ids d) u
    then (Recorded, <[c := write_slot d u v]> m)
    else (NotAParticipant, m).
Proof.
  intros Hd Hlen. unfold SubmissionGate_submit, write_slot, includes, is_at.
  rewrite Hd. destruct (ids d) as [|a [|b [|]]]; simplify_eq/=.
  destruct (decide (u = a)) as [->|Ha].
  { rewrite !bool_decide_eq_true_2; [done | done | apply elem_of_pair; auto]. }
  rewrite (bool_decide_eq_false_2 (Some a = Some u)) by congruence.
  destruct (decide (u = b)) as [->|Hb].
  - rewrite bool_decide_eq_true_2; [done | apply elem_of_pair; auto].
  - rewrite bool_decide_eq_false_2; [done | rewrite elem_of_pair; intuition].
Qed.

Lemma reachable_on_interaction s i E :
  reachable s -> reachable (on_interaction i E s).
Proof. intros Hs. by apply (reachable_step s (InteractionCreate i) E). Qed.

Lemma reachable_started : reachable started.
Proof. apply reachable_on_interaction, reachable_initial. Qed.

Lemma reachable_one_in : reachable one_in.
Proof. apply reachable_on_interaction, reachable_started. Qed.

(** C5 as stated does not hold: the message path drops every
    message whose author is a bot account before it looks the match up.
    With a bot as second participant, the triple (chan1, the bot's id, Y)
    is Recorded into slot B by the contract and by [/submit], and ignored
    by the message path. *)
Lemma C5_counterexample :
  fst (SubmissionGate_submit (matchData against_robot) "chan1" "2" "Y") = Recorded ∧
  matchData
    (on_interaction (slash "submit" robot "chan1" None (Some "Y")) quiet
       against_robot) !! "chan1"
    = Some (MatchData None (Some "Y") ["1"; "2"]) ∧
  matchData (on_message (Message "m1" robot "chan1" "Y") quiet against_robot)
    !! "chan1"
    = Some (MatchData None None ["1"; "2"]) ∧
  trace (on_message (Message "m1" robot "chan1" "Y") quiet against_robot) = [].
Proof. repeat split; vm_compute; reflexivity. Qed.

(** C5, amended.  For every triple (channel key, submitter, value) whose
    submitter is not a bot account, in every reachable state, the [/submit]
    path and the message path both do what [SubmissionGate.submit] says:
    the registry after either is the one the contract yields, [/submit]
    answers with the notice of the contract's outcome, and the message
    path announces the submission exactly when the outcome is Recorded. *)
Theorem C5_one_submit_contract i msg E E' s c u v :
  reachable s ->
  submit_request i c u v -> submit_message msg c u v ->
  bot (author msg) = false ->
  let spec := SubmissionGate_submit (matchData s) c u v in
  matchData (on_interaction i E s) = spec.2 ∧
  attempted (on_interaction i E s) = [reply (submit_notice spec.1)] ∧
  matchData (on_message msg E' s) = spec.2 ∧
  trace (on_message msg E' s) = message_report spec.1 msg E' ∧
  (trace (on_message msg E' s) = [] ↔ spec.1 ≠ Recorded).
Proof.
  intros Hreach Hi (Hmc & Hmu & Hmv) Hbot spec. unfold spec.
  rewrite (on_interaction_submit _ _ _ _ _ _ Hi), on_message_store.
  rewrite Hbot, Hmc, Hmu, Hmv.
  destruct (matchData s !! c) as [d|] eqn:Hd.
  - pose proof (reachable_ids_length _ _ _ Hreach Hd) as Hlen.
    rewrite (SubmissionGate_submit_refined _ _ _ _ _ Hd Hlen).
    destruct (includes (ids d) u) eqn:Hin; [|done]. simpl.
    rewrite message_write_slot; [| done | by apply bool_decide_eq_true in Hin].
    repeat split; try done.
    by intros ?%scrub_trace_nonempty.
  - unfold SubmissionGate_submit. by rewrite Hd.
Qed.

(** C5, amended, for bob's Y in the sample match: both paths leave the
    same registry, under different platform answers. *)
Lemma C5_one_submit_contract_witness :
  matchData (on_interaction (slash "submit" bob "chan1" None (Some "Y")) quiet one_in)
    = matchData (on_message (Message "m1" bob "chan1" "Y") send_rejected one_in).
Proof.
  pose proof (C5_one_submit_contract
                (slash "submit" bob "chan1" None (Some "Y"))
                (Message "m1" bob "chan1" "Y") quiet send_rejected one_in
                "chan1" "2" "Y") as H.
  specialize (H reachable_one_in).
  premises H.
  destruct H as (Hcommand & _ & Hmessage & _ & _).
  exact (eq_trans Hcommand (eq_sym Hmessage)).
Defined.

(** A record found after a run that creates nothing under [c] was there
    from the start, with the same [ids]. *)
Lemma run_lookup evs : ∀ s c d',
  never_creates c evs ->
  matchData (run evs s) !! c = Some d' ->
  ∃ d, matchData s !! c = Some d ∧ ids d' = ids d.
Proof.
  induction evs as [|[ev E] evs IH]; intros s c d' Hno Hd'; simpl in *.
  - by exists d'.
  - apply Forall_cons in Hno as [Hev Hno]. simpl in Hev.
    destruct (IH _ _ _ Hno Hd') as (d1 & Hd1 & Hids).
    apply dispatch_lookup in Hd1 as [(d & Hd & Hids1) | [Hcreate _]].
    + exists d. split; [done|]. congruence.
    + congruence.
Qed.

Lemma run_absent evs s c :
  never_creates c evs -> matchData s !! c = None ->
  matchData (run evs s) !! c = None.
Proof.
  intros Hno Hs. destruct (matchData (run evs s) !! c) as [d'|] eqn:Hd'; [|done].
  destruct (run_lookup _ _ _ _ Hno Hd') as (d & Hd & _). congruence.
Qed.

(** C6. When the expiry callback of a thread runs, the record under the
    thread's id is removed, whatever it held and whatever the platform
    answers; from then on, as long as the platform hands out no new thread
    with that id, the record stays absent, every [/submit] in the thread
    answers NoSuchMatch and changes nothing, and every message typed there
    is ignored. *)
Theorem C6_expiry_retires thread E s evs i u v E1 msg E2 :
  never_creates thread evs ->
  submit_request i thread u v ->
  m_channelId msg = thread ->
  let s1 := on_timeout thread E s in
  let s2 := run evs s1 in
  matchData s1 = delete thread (matchData s) ∧
  matchData s1 !! thread = None ∧
  matchData s2 !! thread = None ∧
  attempted (on_interaction i E1 s2) = [reply (submit_notice NoSuchMatch)] ∧
  matchData (on_interaction i E1 s2) = matchData s2 ∧
  on_message msg E2 s2 = fresh s2.
Proof.
  intros Hno Hi Hm s1 s2.
  assert (matchData s1 = delete thread (matchData s)) as H1
    by (unfold s1; by rewrite on_timeout_store).
  assert (matchData s1 !! thread = None) as H1'
    by (rewrite H1; apply lookup_delete_eq).
  assert (matchData s2 !! thread = None) as H2 by by apply run_absent.
  repeat split; try done.
  - by rewrite (on_interaction_submit _ _ _ _ _ _ Hi), H2.
  - by rewrite (on_interaction_submit _ _ _ _ _ _ Hi), H2.
  - rewrite on_message_store, Hm, H2. by destruct (bot _).
Qed.

(** C6 on the sample match, expired with one value in. *)
Lemma C6_expiry_retires_witness :
  attempted
    (on_interaction (slash "submit" alice "chan1" None (Some "Z")) quiet
       (run [(MessageCreate (Message "m1" bob "chan1" "Y"), quiet)]
          (on_timeout "chan1" send_rejected one_in)))
    = [reply (submit_notice NoSuchMatch)].
Proof.
  pose proof (C6_expiry_retires "chan1" send_rejected one_in
                [(MessageCreate (Message "m1" bob "chan1" "Y"), quiet)]
                (slash "submit" alice "chan1" None (Some "Z")) "1" "Z" quiet
                (Message "m2" alice "chan1" "Z") quiet) as H.
  lapply H; [clear H; intros H | repeat constructor].
  premises H.
  destruct H as (_ & _ & _ & Hnotice & _).
  exact Hnotice.
Defined.

(** C7, on the code.  [/startmatch] does not compare the opponent with
    the starter: a user who names themselves gets a record whose two
    participant ids are the same, where the match is for two players and
    the slot logic tells them apart by id. *)
Theorem C7_self_match_stored :
  reachable self_match ∧
  matchData self_match !! "chan1" = Some (MatchData None None ["1"; "1"]) ∧
  ¬ NoDup ["1"; "1"].
Proof.
  split; [apply reachable_on_interaction, reachable_initial|].
  split; [vm_compute; reflexivity|].
  intros Hnd. apply NoDup_cons in Hnd as [Hnotin _].
  apply Hnotin, list_elem_of_here.
Qed.

Lemma write_slot_twice d u v1 v2 :
  write_slot (write_slot d u v1) u v2 = write_slot d u v2.
Proof.
  unfold write_slot. by destruct (is_at (ids d) 0 u) eqn:H; simpl; rewrite H.
Qed.

(** What a [/reveal] does when nothing stands in its way: both values
    present and accepted by the embed builder, both calls accepted by the
    platform. *)
Lemma reveal_discloses i E s c d a b :
  reveal_request i c ->
  matchData s !! c = Some d ->
  playerA d = Some a -> playerB d = Some b ->
  value_ok a = true -> value_ok b = true ->
  rejects E (disclosure c a b (now E)) = false ->
  rejects E (reply reveal_done) = false ->
  on_interaction i E s =
    Store (delete c (matchData s)) (timers s) false
      [(disclosure c a b (now E), true); (reply reveal_done, true)].
Proof.
  intros Hi Hd HA HB Ha Hb Hsend Hreply.
  assert (truthy (Some a) = true) as Hta
    by (destruct a; [by vm_compute in Ha|done]).
  assert (truthy (Some b) = true) as Htb
    by (destruct b; [by vm_compute in Hb|done]).
  rewrite (on_interaction_reveal _ _ _ _ Hi), Hd, HA, HB, Hta, Htb.
  change (default EmptyString (Some a)) with a.
  change (default EmptyString (Some b)) with b.
  rewrite Ha, Hb. cbv beta iota zeta delta [negb orb andb].
  by rewrite Hsend, Hreply.
Qed.





(** C9. In any state where a match exists under [c], a [/submit] in [c]
    by a user who is not one of the match's participants is answered
    NotAParticipant and leaves the registry (both slots, every other
    record) and the timers as they were; a message typed in [c] by such a
    user is ignored. *)
Theorem C9_stranger_rejected i msg E E' s c u d :
  isChatInputCommand i = true -> commandName i = "submit" ->
  i_channelId i = c -> id (i_user i) = u ->
  m_channelId msg = c -> id (author msg) = u ->
  matchData s !! c = Some d ->
  u ∉ ids d ->
  attempted (on_interaction i E s) = [reply (submit_notice NotAParticipant)] ∧
  matchData (on_interaction i E s) = matchData s ∧
  timers (on_interaction i E s) = timers s ∧
  on_message msg E' s = fresh s.
Proof.
  intros Hc Hn Hic Hiu Hmc Hmu Hd Hu. subst u.
  rewrite (on_interaction_submit_stranger _ _ _ _ _ Hc Hn Hic Hd Hu).
  repeat split.
  rewrite on_message_store, Hmc, Hd, Hmu.
  unfold includes. rewrite bool_decide_eq_false_2 by done.
  by destruct (bot _).
Qed.

(** C9 for carol, who is not in the sample match. *)
Lemma C9_stranger_rejected_witness :
  attempted
    (on_interaction (slash "submit" carol "chan1" None (Some "Z")) quiet one_in)
    = [reply (submit_notice NotAParticipant)] ∧
  matchData
    (on_interaction (slash "submit" carol "chan1" None (Some "Z")) quiet one_in)
    = matchData one_in.
Proof.
  pose proof (C9_stranger_rejected
                (slash "submit" carol "chan1" None (Some "Z"))
                (Message "m1" carol "chan1" "Z") quiet quiet one_in "chan1"
                "3" (MatchData (Some "X") None ["1"; "2"])) as H.
  do 7 (lapply H; [clear H; intros H | by_evaluation]).
  lapply H; [clear H; intros H
            | simpl; rewrite elem_of_pair; intros [|]; discriminate].
  destruct H as (Hnotice & Hsame & _).
  exact (conj Hnotice Hsame).
Defined.





(* --------------------------------------------------------------------- *)
(* 9. Further properties of the handlers                                 *)
(* --------------------------------------------------------------------- *)

Ltac trace_inv H :=
  repeat (apply elem_of_cons in H as [H|H]; [simplify_eq/=; try done|]);
  try (by apply elem_of_nil in H).

(** X1. The interaction handler acts on the registered commands alone: an
    interaction that is not a chat-input command, or whose command is not
    in the command table, makes no call and leaves the store as it was. *)
Theorem X1_unregistered_command_ignored i E s :
  isChatInputCommand i = false ∨ commandName i ∉ c_name <$> commands ->
  on_interaction i E s = fresh s.
Proof.
  intros [Hc | Hn]; apply on_interaction_other; [by left|right].
  repeat split; intros Heq; apply Hn; rewrite Heq; simpl.
  - apply list_elem_of_here.
  - do 2 apply list_elem_of_further. apply list_elem_of_here.
  - apply list_elem_of_further, list_elem_of_here.
Qed.

(** X1 for a command the bot never registered. *)
Lemma X1_unregistered_command_ignored_witness :
  on_interaction (slash "help" alice "chan1" None None) send_rejected one_in
    = fresh one_in.
Proof.
  apply X1_unregistered_command_ignored. right. simpl.
  intros Hin. trace_inv Hin.
Defined.

(** X2. [/startmatch] outside a server: one reply, nothing deferred, no
    thread asked for, registry and timers as they were. *)
Theorem X2_startmatch_outside_guild i E s :
  isChatInputCommand i = true -> commandName i = "startmatch" ->
  inGuild i = false ->
  trace (on_interaction i E s) = [answered E (reply "Use this in a server.")] ∧
  matchData (on_interaction i E s) = matchData s ∧
  timers (on_interaction i E s) = timers s.
Proof.
  intros Hc Hn Hg. js_unfold. rewrite Hc, Hn, Hg. simpl.
  by destruct (rejects E _).
Qed.

Lemma X2_startmatch_outside_guild_witness :
  trace (on_interaction
           (Interaction true "startmatch" false alice "dm" GuildText true
              (Some bob) None) quiet initial)
    = [(reply "Use this in a server.", true)].
Proof.
  pose proof (X2_startmatch_outside_guild
                (Interaction true "startmatch" false alice "dm" GuildText true
                   (Some bob) None) quiet initial) as H.
  premises H. exact (proj1 H).
Defined.

(** X3. [/startmatch] in a channel that is neither a text nor an
    announcement channel (a thread, a forum): the reply is deferred and
    edited into the refusal; no thread is asked for, nothing is stored,
    no timer is armed. *)
Theorem X3_startmatch_wrong_channel i E s opponent :
  isChatInputCommand i = true -> commandName i = "startmatch" ->
  inGuild i = true -> opt_opponent i = Some opponent ->
  i_channelType i ≠ GuildText -> i_channelType i ≠ GuildAnnouncement ->
  rejects E (interaction_deferReply true) = false ->
  trace (on_interaction i E s) =
    [(interaction_deferReply true, true);
     answered E (interaction_editReply
       "Please run /startmatch in a regular text channel (not in a thread/forum).")] ∧
  matchData (on_interaction i E s) = matchData s ∧
  timers (on_interaction i E s) = timers s.
Proof.
  intros Hc Hn Hg Ho Ht1 Ht2 Hdefer.
  js_unfold. rewrite Hc, Hn, Hg, Ho. simpl. rewrite Hdefer. simpl.
  rewrite !bool_decide_eq_false_2 by done. simpl.
  by destruct (rejects E (interaction_editReply _)).
Qed.

Lemma X3_startmatch_wrong_channel_witness :
  matchData (on_interaction
               (Interaction true "startmatch" true alice "chan1" PrivateThread
                  true (Some bob) None) quiet one_in)
    = matchData one_in.
Proof.
  pose proof (X3_startmatch_wrong_channel
                (Interaction true "startmatch" true alice "chan1" PrivateThread
                   true (Some bob) None) quiet one_in bob) as H.
  premises H. exact (proj1 (proj2 H)).
Defined.

(** X4. [/startmatch] when the platform refuses to create the thread: the
    failure is logged, the deferred reply is edited into the permission
    hint, nothing is stored and no timer is armed. *)
Theorem X4_startmatch_thread_refused i E s starter opponent :
  startmatch_request i starter opponent ->
  rejects E (interaction_deferReply true) = false ->
  new_thread E = None ->
  trace (on_interaction i E s) =
    [(interaction_deferReply true, true);
     (threads_create (i_channelId i)
        ("match-" +:+ username starter +:+ "-vs-" +:+ username opponent), false);
     (console_error "Thread create failed:", true);
     answered E (interaction_editReply
       "I could not create a private thread. I may be missing the **Create Private Threads** permission.")] ∧
  matchData (on_interaction i E s) = matchData s ∧
  timers (on_interaction i E s) = timers s.
Proof.
  intros (Hc & Hn & Hg & <- & Ho & Hty) Hdefer Hnew.
  js_unfold. rewrite Hc, Hn, Hg, Ho. simpl. rewrite Hdefer, Hnew. simpl.
  assert (negb (bool_decide (i_channelType i = GuildText))
          && negb (bool_decide (i_channelType i = GuildAnnouncement)) = false)
    as -> by (destruct Hty as [-> | ->]; done).
  simpl. by destruct (rejects E (interaction_editReply _)).
Qed.

Lemma X4_startmatch_thread_refused_witness :
  matchData (on_interaction (slash "startmatch" alice "lobby" (Some bob) None)
               send_rejected initial)
    = matchData initial.
Proof.
  pose proof (X4_startmatch_thread_refused
                (slash "startmatch" alice "lobby" (Some bob) None)
                send_rejected initial alice bob) as H.
  premises H. exact (proj1 (proj2 H)).
Defined.

(** X5. [/startmatch] when the platform creates the thread and accepts
    the two announcements: the record is stored with both slots absent and
    the expiry timer is armed, whether or not the two players could be
    added to the thread (those two rejections are swallowed). *)
Theorem X5_startmatch_created i E s starter opponent c :
  startmatch_request i starter opponent -> creates E c ->
  let created := interaction_editReply
    ("Match thread created: <#" +:+ c +:+ "> (will delete in ~10 minutes)") in
  let welcome := channel_send c (Content
    ("Welcome <@" +:+ id starter +:+ "> and <@" +:+ id opponent
       +:+ ">! You can type your choice here (I will hide it), or use /submit.")) in
  rejects E created = false -> rejects E welcome = false ->
  matchData (on_interaction i E s) =
    <[c := MatchData None None [id starter; id opponent]]> (matchData s) ∧
  timers (on_interaction i E s) = timers s ++ [c] ∧
  trace (on_interaction i E s) =
    [(interaction_deferReply true, true);
     (threads_create (i_channelId i)
        ("match-" +:+ username starter +:+ "-vs-" +:+ username opponent), true);
     answered E (members_add c (id starter));
     answered E (members_add c (id opponent));
     (created, true); (welcome, true)].
Proof.
  intros (Hc & Hn & Hg & <- & Ho & Hty) [Hdefer Hnew] created welcome Hcr Hw.
  js_unfold. rewrite Hc, Hn, Hg, Ho. simpl. rewrite Hdefer, Hnew. simpl.
  assert (negb (bool_decide (i_channelType i = GuildText))
          && negb (bool_decide (i_channelType i = GuildAnnouncement)) = false)
    as -> by (destruct Hty as [-> | ->]; done).
  simpl.
  destruct (rejects E (members_add c (id (i_user i)))); simpl;
    destruct (rejects E (members_add c (id opponent))); simpl;
    fold created; fold welcome; rewrite Hcr; simpl; rewrite Hw; done.
Qed.

Lemma X5_startmatch_created_witness :
  timers started = ["chan1"].
Proof.
  pose proof (X5_startmatch_created
                (slash "startmatch" alice "lobby" (Some bob) None) quiet
                initial alice bob "chan1") as H.
  premises H. cbv zeta in H. premises H.
  exact (proj1 (proj2 H)).
Defined.

(** X6. [/startmatch] when the thread is created and one of the two
    announcements is then rejected: the record is already stored, the
    handler leaves through its [catch], and no expiry timer is armed for
    that record. *)
Theorem X6_startmatch_unannounced_never_expires i E s starter opponent c :
  startmatch_request i starter opponent -> creates E c ->
  let created := interaction_editReply
    ("Match thread created: <#" +:+ c +:+ "> (will delete in ~10 minutes)") in
  let welcome := channel_send c (Content
    ("Welcome <@" +:+ id starter +:+ "> and <@" +:+ id opponent
       +:+ ">! You can type your choice here (I will hide it), or use /submit.")) in
  rejects E created = true ∨ rejects E welcome = true ->
  matchData (on_interaction i E s) !! c
    = Some (MatchData None None [id starter; id opponent]) ∧
  timers (on_interaction i E s) = timers s ∧
  (console_error "interaction error:", true) ∈ trace (on_interaction i E s).
Proof.
  intros Hi Hcr created welcome Hrej.
  split.
  { rewrite (on_interaction_startmatch _ _ _ _ _ _ Hi Hcr).
    apply lookup_insert_eq. }
  destruct Hi as (Hc & Hn & Hg & <- & Ho & Hty). destruct Hcr as [Hdefer Hnew].
  js_unfold. rewrite Hc, Hn, Hg, Ho. simpl. rewrite Hdefer, Hnew. simpl.
  assert (negb (bool_decide (i_channelType i = GuildText))
          && negb (bool_decide (i_channelType i = GuildAnnouncement)) = false)
    as -> by (destruct Hty as [-> | ->]; done).
  simpl.
  destruct (rejects E (members_add c (id (i_user i)))); simpl;
    destruct (rejects E (members_add c (id opponent))); simpl;
    fold created; fold welcome;
    (destruct (rejects E created) eqn:Hcreated; simpl;
     [|destruct (rejects E welcome) eqn:Hwelcome; simpl;
       [|destruct Hrej; congruence]]);
    destruct (isRepliable i); simpl;
    try destruct (rejects E (interaction_editReply
                    "Unexpected error handling this command.")); simpl;
    (split; [done|]); set_unfold; tauto.
Qed.

Lemma X6_startmatch_unannounced_never_expires_witness :
  matchData
    (on_interaction (slash "startmatch" alice "lobby" (Some bob) None)
       thread_mute initial) !! "chan1"
    = Some (MatchData None None ["1"; "2"]) ∧
  timers
    (on_interaction (slash "startmatch" alice "lobby" (Some bob) None)
       thread_mute initial) = [].
Proof.
  pose proof (X6_startmatch_unannounced_never_expires
                (slash "startmatch" alice "lobby" (Some bob) None) thread_mute
                initial alice bob "chan1") as H.
  premises H. cbv zeta in H.
  lapply H; [clear H; intros H | right; reflexivity].
  exact (conj (proj1 H) (proj1 (proj2 H))).
Defined.

Lemma target_not_created ev E c :
  target ev E ≠ Some c -> creates_thread c ev E = false.
Proof.
  destruct ev as [i| |]; simpl; [|done..].
  intros Ht. destruct (isChatInputCommand i); [|done]. simpl.
  destruct (bool_decide (commandName i = "startmatch")); [|done]. simpl.
  apply bool_decide_eq_false_2. congruence.
Qed.

(** An event leaves every key but its target alone. *)
Lemma dispatch_frame ev E s k :
  target ev E ≠ Some k ->
  matchData (dispatch ev E s) !! k = matchData s !! k.
Proof.
  destruct ev as [i | msg | thread]; simpl; intros Hk.
  - destruct (decide (commandName i = "startmatch")) as [Hn|Hn1].
    { rewrite bool_decide_eq_true_2 in Hk by done.
      destruct (on_interaction_startmatch_cases i E s Hn)
        as [-> | (c & o & _ & Hnew & ->)]; [done|].
      apply lookup_insert_ne. congruence. }
    rewrite bool_decide_eq_false_2 in Hk by done.
    destruct (decide (commandName i = "submit")) as [Hn|Hn2].
    { destruct (on_interaction_submit_matchData i E s Hn)
        as [-> | (d & v & _ & ->)]; [done|].
      apply lookup_insert_ne. congruence. }
    destruct (decide (commandName i = "reveal")) as [Hn|Hn3].
    { destruct (on_interaction_reveal_matchData i E s Hn) as [-> | ->];
        [done|].
      apply lookup_delete_ne. congruence. }
    by rewrite on_interaction_other by auto.
  - rewrite on_message_store.
    destruct (bot (author msg)); [done|].
    destruct (matchData s !! m_channelId msg) as [d|]; [|done].
    destruct (includes _ _); [|done]. simpl.
    apply lookup_insert_ne. congruence.
  - rewrite on_timeout_store. simpl. apply lookup_delete_ne. congruence.
Qed.

(** X7. Matches are isolated: an event changes [matchData] at one key at
    most, the thread it creates for [/startmatch], the channel it was
    typed in otherwise, the thread of the timer; the record under every
    other key is the same before and after. *)
Theorem X7_one_key_touched ev E s k :
  target ev E ≠ Some k ->
  matchData (dispatch ev E s) !! k = matchData s !! k.
Proof. apply dispatch_frame. Qed.

(** X7: bob's submission in [chan1] leaves the key [chan2] alone. *)
Lemma X7_one_key_touched_witness :
  matchData
    (dispatch (InteractionCreate (slash "submit" bob "chan1" None (Some "Y")))
       quiet one_in) !! "chan2"
    = matchData one_in !! "chan2".
Proof.
  apply (X7_one_key_touched
           (InteractionCreate (slash "submit" bob "chan1" None (Some "Y")))
           quiet one_in "chan2").
  simpl. discriminate.
Defined.

Lemma on_interaction_submit_record i E s :
  commandName i = "submit" ->
  matchData (on_interaction i E s) = matchData s ∨
  ∃ d v,
    isChatInputCommand i = true ∧
    matchData s !! i_channelId i = Some d ∧
    id (i_user i) ∈ ids d ∧
    matchData (on_interaction i E s) =
      <[i_channelId i := write_slot d (id (i_user i)) v]> (matchData s).
Proof.
  intros Hn. destruct (isChatInputCommand i) eqn:Hc; last first.
  { left. rewrite on_interaction_other by auto. done. }
  destruct (opt_choice i) as [v|] eqn:Hv.
  - rewrite (on_interaction_submit i E s (i_channelId i) (id (i_user i)) v)
      by done.
    destruct (matchData s !! i_channelId i) as [d|]; [|by left].
    destruct (includes _ _) eqn:Hin; [|by left]. right. exists d, v.
    repeat split; try done. by apply bool_decide_eq_true in Hin.
  - left. js_unfold. rewrite Hc, Hn, Hv. simpl. js_cases.
Qed.

(** A record that survives an event which creates nothing under its key
    is unchanged, or is rewritten by a submission typed in its channel by
    one of its participants. *)
Lemma dispatch_record ev E s c d d' :
  creates_thread c ev E = false ->
  matchData s !! c = Some d ->
  matchData (dispatch ev E s) !! c = Some d' ->
  d' = d ∨
  ∃ u v, submission_by c u ev ∧ u ∈ ids d ∧
    d' = match ev with
         | MessageCreate _ => message_write d u v
         | _ => write_slot d u v
         end.
Proof.
  intros Hno Hd.
  destruct (decide (target ev E = Some c)) as [Ht|Ht]; last first.
  { rewrite (dispatch_frame ev E s c Ht), Hd. intros [= <-]. by left. }
  destruct ev as [i | msg | thread]; simpl in *.
  - destruct (decide (commandName i = "startmatch")) as [Hn|Hn1].
    { destruct (on_interaction_startmatch_cases i E s Hn)
        as [-> | (k & o & Hc & Hnew & ->)]; [rewrite Hd; intros [= <-]; by left|].
      rewrite Hc, bool_decide_eq_true_2 in Hno by done. simpl in Hno.
      apply bool_decide_eq_false in Hno.
      rewrite lookup_insert_ne by congruence. rewrite Hd. intros [= <-]. by left. }
    rewrite bool_decide_eq_false_2 in Ht by done. simplify_eq.
    destruct (decide (commandName i = "submit")) as [Hn|Hn2].
    { destruct (on_interaction_submit_record i E s Hn)
        as [-> | (d0 & v & Hc & Hd0 & Hin & ->)].
      - rewrite Hd. intros [= <-]. by left.
      - rewrite lookup_insert_eq. intros [= <-]. simplify_eq. right.
        by exists (id (i_user i)), v. }
    destruct (decide (commandName i = "reveal")) as [Hn|Hn3].
    { destruct (on_interaction_reveal_matchData i E s Hn) as [-> | ->].
      - rewrite Hd. intros [= <-]. by left.
      - by rewrite lookup_delete_eq. }
    rewrite on_interaction_other by auto. simpl.
    rewrite Hd. intros [= <-]. by left.
  - simplify_eq. rewrite on_message_store.
    destruct (bot (author msg)) eqn:Hbot;
      [simpl; rewrite Hd; intros [= <-]; by left|].
    rewrite Hd.
    destruct (includes _ _) eqn:Hin;
      [|simpl; rewrite Hd; intros [= <-]; by left].
    simpl. rewrite lookup_insert_eq. intros [= <-]. right.
    exists (id (author msg)), (content msg).
    repeat split; try done. by apply bool_decide_eq_true in Hin.
  - simplify_eq. rewrite on_timeout_store. simpl. by rewrite lookup_delete_eq.
Qed.

Lemma second_of_pair (l : list string) (u : string) :
  length l = 2 -> u ∈ l -> l !! 0 ≠ Some u -> l !! 1 = Some u.
Proof.
  intros Hlen Hu Hne. destruct l as [|a [|b [|]]]; simplify_eq/=.
  apply elem_of_pair in Hu as [->| ->]; [by destruct Hne|done].
Qed.

(** X8. Nobody writes another participant's slot.  When a record of a
    reachable registry survives an event that creates nothing under its
    key, its participants are unchanged; slot A is changed only by a
    submission typed in the match channel by the first participant, and
    slot B only by one of the second participant. *)
Theorem X8_slot_changed_by_owner ev E s c d d' :
  reachable s ->
  creates_thread c ev E = false ->
  matchData s !! c = Some d ->
  matchData (dispatch ev E s) !! c = Some d' ->
  ids d' = ids d ∧
  (playerA d' ≠ playerA d -> ∃ u, submission_by c u ev ∧ ids d !! 0 = Some u) ∧
  (playerB d' ≠ playerB d -> ∃ u, submission_by c u ev ∧ ids d !! 1 = Some u).
Proof.
  intros Hreach Hno Hd Hd'.
  pose proof (reachable_ids_length _ _ _ Hreach Hd) as Hlen.
  destruct (dispatch_record _ _ _ _ _ _ Hno Hd Hd')
    as [-> | (u & v & Hby & Hu & ->)]; [done|].
  assert (is_at (ids d) 0 u = false -> ids d !! 1 = Some u) as Hsecond.
  { intros Hat. apply second_of_pair; [done..|].
    by apply bool_decide_eq_false in Hat. }
  destruct ev as [i | msg | thread]; [| |done].
  - unfold write_slot. destruct (is_at (ids d) 0 u) eqn:Hat; simpl.
    + apply bool_decide_eq_true in Hat. repeat split; [by eauto|done].
    + repeat split; [done|by eauto].
  - unfold message_write. destruct (is_at (ids d) 0 u) eqn:Hat; simpl.
    + apply bool_decide_eq_true in Hat. repeat split; [by eauto|done].
    + destruct (is_at (ids d) 1 u); simpl; repeat split; try done; by eauto.
Qed.

(** X8 on the sample match: bob's [/submit] leaves alice's X in slot A. *)
Lemma X8_slot_changed_by_owner_witness :
  ids (MatchData (Some "X") (Some "Y") ["1"; "2"])
    = ids (MatchData (Some "X") None ["1"; "2"]).
Proof.
  pose proof (X8_slot_changed_by_owner
                (InteractionCreate (slash "submit" bob "chan1" None (Some "Y")))
                quiet one_in "chan1"
                (MatchData (Some "X") None ["1"; "2"])
                (MatchData (Some "X") (Some "Y") ["1"; "2"])
                reachable_one_in) as H.
  premises H. exact (proj1 H).
Defined.

Lemma run_self_match u c evs : ∀ s d d',
  matchData s !! c = Some d -> ids d = [u; u] -> playerB d = None ->
  never_creates c evs ->
  matchData (run evs s) !! c = Some d' ->
  ids d' = [u; u] ∧ playerB d' = None.
Proof.
  induction evs as [|[ev E] evs IH]; intros s d d' Hd Hids HB Hno Hd';
    simpl in *.
  - by simplify_eq.
  - apply Forall_cons in Hno as [Hev Hno]. simpl in Hev.
    destruct (matchData (dispatch ev E s) !! c) as [d1|] eqn:Hd1; last first.
    { by rewrite (run_absent _ _ _ Hno Hd1) in Hd'. }
    apply (IH _ d1 d' Hd1); [| |done..].
    + destruct (dispatch_record _ _ _ _ _ _ Hev Hd Hd1)
        as [-> | (w & v & _ & _ & ->)]; [done|].
      unfold message_write, write_slot. by repeat case_match.
    + destruct (dispatch_record _ _ _ _ _ _ Hev Hd Hd1)
        as [-> | (w & v & _ & Hw & ->)]; [done|].
      rewrite Hids in Hw. apply elem_of_pair in Hw.
      assert (w = u) as -> by tauto.
      unfold message_write, write_slot. rewrite Hids, is_at_first.
      by destruct ev.
Qed.

(** X9. A match a user starts against themselves can never be revealed:
    with the same id in both places every submission of that user goes to
    slot A, slot B stays absent whatever happens afterwards, and every
    [/reveal] in the thread answers Incomplete (or NoSuchMatch once the
    record is gone). *)
Theorem X9_self_match_never_revealed u c s d evs i E :
  matchData s !! c = Some d ->
  ids d = [u; u] -> playerB d = None ->
  never_creates c evs ->
  reveal_request i c ->
  matchData (on_interaction i E (run evs s)) = matchData (run evs s) ∧
  (attempted (on_interaction i E (run evs s)) = [reply reveal_Incomplete] ∨
   attempted (on_interaction i E (run evs s)) = [reply reveal_NoSuchMatch]).
Proof.
  intros Hd Hids HB Hno Hi.
  rewrite (on_interaction_reveal _ _ _ _ Hi).
  destruct (matchData (run evs s) !! c) as [d'|] eqn:Hd'; [|by auto].
  destruct (run_self_match _ _ _ _ _ _ Hd Hids HB Hno Hd') as [_ ->].
  rewrite orb_true_r. by auto.
Qed.

(** X9: alice against herself, after she has submitted twice. *)
Lemma X9_self_match_never_revealed_witness :
  attempted
    (on_interaction (slash "reveal" alice "chan1" None None) quiet
       (run [(InteractionCreate (slash "submit" alice "chan1" None (Some "X")), quiet);
             (MessageCreate (Message "m1" alice "chan1" "Y"), quiet)]
          self_match))
    = [reply reveal_Incomplete].
Proof.
  pose proof (X9_self_match_never_revealed "1" "chan1" self_match
                (MatchData None None ["1"; "1"])
                [(InteractionCreate (slash "submit" alice "chan1" None (Some "X")), quiet);
                 (MessageCreate (Message "m1" alice "chan1" "Y"), quiet)]
                (slash "reveal" alice "chan1" None None) quiet) as H.
  do 3 (lapply H; [clear H; intros H | by_evaluation]).
  lapply H; [clear H; intros H | repeat constructor].
  premises H.
  destruct H as [_ [H|H]]; [exact H|].
  vm_compute in H. discriminate H.
Defined.

Lemma no_embed_unless_reveal i E s :
  commandName i ≠ "reveal" ->
  Forall (fun p => is_embed p.1 = false) (trace (on_interaction i E s)).
Proof.
  intros Hn3. destruct (isChatInputCommand i) eqn:Hc; last first.
  { rewrite on_interaction_other by auto. constructor. }
  destruct (decide (commandName i = "startmatch")) as [Hn|Hn1].
  { js_unfold. rewrite Hc, Hn. simpl. js_cases; repeat constructor. }
  destruct (decide (commandName i = "submit")) as [Hn|Hn2].
  { js_unfold. rewrite Hc, Hn. simpl. js_cases; repeat constructor. }
  rewrite on_interaction_other by auto. constructor.
Qed.

Lemma truthy_inv o : truthy o = true -> ∃ v, o = Some v ∧ v ≠ EmptyString.
Proof. destruct o as [[|a v]|]; try done. intros _. by eexists. Qed.

(** X10. No disclosure before both values are in.  Whatever the event,
    the state and the platform's answers, an embed is sent only by a
    [/reveal] typed in a channel whose record holds a non-empty value in
    each slot, to that channel, and it carries exactly those two values,
    slot A first. *)
Theorem X10_disclosure_only_when_complete ev E s e ok :
  (e, ok) ∈ trace (dispatch ev E s) ->
  is_embed e = true ->
  ∃ i d a b,
    ev = InteractionCreate i ∧ commandName i = "reveal" ∧
    matchData s !! i_channelId i = Some d ∧
    playerA d = Some a ∧ playerB d = Some b ∧
    a ≠ EmptyString ∧ b ≠ EmptyString ∧
    e = disclosure (i_channelId i) a b (now E).
Proof.
  intros Hin He. destruct ev as [i | msg | thread]; simpl in Hin.
  - destruct (decide (commandName i = "reveal")) as [Hn|Hn]; last first.
    { pose proof (no_embed_unless_reveal i E s Hn) as Hall.
      rewrite Forall_forall in Hall. specialize (Hall _ Hin). simpl in Hall.
      congruence. }
    destruct (isChatInputCommand i) eqn:Hc; last first.
    { rewrite on_interaction_other in Hin by auto. by apply elem_of_nil in Hin. }
    rewrite (on_interaction_reveal i E s (i_channelId i)) in Hin by done.
    destruct (matchData s !! i_channelId i) as [d|] eqn:Hd;
      [|unfold answered in Hin; trace_inv Hin].
    destruct (truthy (playerA d)) eqn:HA;
      [|unfold answered in Hin; trace_inv Hin].
    destruct (truthy (playerB d)) eqn:HB;
      [|unfold answered in Hin; trace_inv Hin].
    apply truthy_inv in HA as (a & HA & Ha).
    apply truthy_inv in HB as (b & HB & Hb).
    rewrite HA, HB in Hin. simpl in Hin.
    assert (e = disclosure (i_channelId i) a b (now E)) as ->; last first.
    { exists i, d, a, b. by repeat split. }
    destruct (negb (value_ok a && value_ok b)).
    { rewrite recover_trace in Hin. simpl in Hin. unfold answered in Hin.
      destruct (isRepliable i); trace_inv Hin. }
    destruct (rejects E (disclosure _ _ _ _)).
    { rewrite recover_trace in Hin. simpl in Hin. unfold answered in Hin.
      destruct (isRepliable i); trace_inv Hin. }
    destruct (rejects E (reply reveal_done)).
    { rewrite recover_trace in Hin. simpl in Hin. unfold answered in Hin.
      destruct (isRepliable i); trace_inv Hin. }
    simpl in Hin. trace_inv Hin.
  - rewrite on_message_store in Hin.
    destruct (bot (author msg)); [by apply elem_of_nil in Hin|].
    destruct (matchData s !! m_channelId msg); [|by apply elem_of_nil in Hin].
    destruct (includes _ _); [|by apply elem_of_nil in Hin].
    simpl in Hin. unfold scrub_trace, answered in Hin.
    repeat case_match; trace_inv Hin.
  - rewrite on_timeout_store in Hin. unfold answered in Hin. simpl in Hin.
    trace_inv Hin.
Qed.

(** X10 on the sample match: the embed of the reveal carries X and Y. *)
Lemma X10_disclosure_only_when_complete_witness :
  ∃ i d a b,
    InteractionCreate (slash "reveal" alice "chan1" None None)
      = InteractionCreate i ∧ commandName i = "reveal" ∧
    matchData both_in !! i_channelId i = Some d ∧
    playerA d = Some a ∧ playerB d = Some b ∧
    a ≠ EmptyString ∧ b ≠ EmptyString ∧
    disclosure "chan1" "X" "Y" 0 = disclosure (i_channelId i) a b (now quiet).
Proof.
  apply (X10_disclosure_only_when_complete
           (InteractionCreate (slash "reveal" alice "chan1" None None)) quiet
           both_in (disclosure "chan1" "X" "Y" 0) true).
  - vm_compute. apply list_elem_of_here.
  - reflexivity.
Defined.

(** X11. Reveal and expiry in either order.  After a [/reveal] that went
    through (both values present and within what an embed field can
    carry, both calls accepted), the expiry callback still asks for the
    thread to be deleted and finds nothing to remove: the registry is as
    the reveal left it.  After the expiry, a [/reveal] in the thread
    answers NoSuchMatch and changes nothing. *)
Theorem X11_reveal_and_expiry i E s c d a b Et E' :
  reveal_request i c ->
  matchData s !! c = Some d ->
  playerA d = Some a -> playerB d = Some b ->
  value_ok a = true -> value_ok b = true ->
  rejects E (disclosure c a b (now E)) = false ->
  rejects E (reply reveal_done) = false ->
  let revealed := on_interaction i E s in
  let expired := on_timeout c Et s in
  matchData (on_timeout c Et revealed) = matchData revealed ∧
  attempted (on_timeout c Et revealed) = [thread_delete c] ∧
  matchData (on_interaction i E' expired) = matchData expired ∧
  attempted (on_interaction i E' expired) = [reply reveal_NoSuchMatch] ∧
  matchData revealed = matchData expired.
Proof.
  intros Hi Hd HA HB Ha Hb Hsend Hreply revealed expired.
  assert (matchData revealed = delete c (matchData s)) as Hrev.
  { unfold revealed.
    by rewrite (reveal_discloses _ _ _ _ _ _ _ Hi Hd HA HB Ha Hb Hsend Hreply). }
  assert (matchData expired = delete c (matchData s)) as Hexp
    by (unfold expired; by rewrite on_timeout_store).
  rewrite !on_timeout_store, (on_interaction_reveal _ _ _ _ Hi). simpl.
  fold expired. rewrite Hrev, Hexp, lookup_delete_eq.
  repeat split. apply delete_id, lookup_delete_eq.
Qed.

Lemma X11_reveal_and_expiry_witness :
  matchData
    (on_timeout "chan1" send_rejected
       (on_interaction (slash "reveal" alice "chan1" None None) quiet both_in))
    = matchData
        (on_interaction (slash "reveal" alice "chan1" None None) quiet both_in).
Proof.
  pose proof (X11_reveal_and_expiry
                (slash "reveal" alice "chan1" None None) quiet both_in "chan1"
                (MatchData (Some "X") (Some "Y") ["1"; "2"]) "X" "Y"
                send_rejected quiet) as H.
  premises H. exact (proj1 H).
Defined.

(** X12. A whole match leaves no residue.  On a key with no record,
    creating the match, taking from each of two distinct participants a
    value an embed field can carry (1 to 1024 characters) and revealing
    (the platform accepting the disclosure and the answer) gives back the
    registry as it was before the match; so does creating the match and
    letting it expire. *)
Theorem X12_lifecycle_restores_registry
    c P1 P2 x y s iC iS1 iS2 iR E0 E1 E2 E3 Et :
  matchData s !! c = None ->
  id P1 ≠ id P2 ->
  value_ok x = true -> value_ok y = true ->
  startmatch_request iC P1 P2 -> creates E0 c ->
  submit_request iS1 c (id P1) x -> submit_request iS2 c (id P2) y ->
  reveal_request iR c ->
  rejects E3 (disclosure c x y (now E3)) = false ->
  rejects E3 (reply reveal_done) = false ->
  let s1 := on_interaction iC E0 s in
  matchData
    (on_interaction iR E3 (on_interaction iS2 E2 (on_interaction iS1 E1 s1)))
    = matchData s ∧
  matchData (on_timeout c Et s1) = matchData s.
Proof.
  intros Hfresh Hne Hx Hy HC Hcr HS1 HS2 HR Hsend Hreply s1.
  assert (matchData s1 = <[c := MatchData None None [id P1; id P2]]> (matchData s))
    as H1 by (by apply on_interaction_startmatch).
  split; last first.
  { rewrite on_timeout_store. simpl. rewrite H1, delete_insert_eq.
    by apply delete_id. }
  set (s2 := on_interaction iS1 E1 s1).
  set (s3 := on_interaction iS2 E2 s2).
  assert (matchData s2 =
            <[c := MatchData (Some x) None [id P1; id P2]]> (matchData s1)) as H2.
  { unfold s2. rewrite (on_interaction_submit _ _ _ _ _ _ HS1), H1,
      lookup_insert_eq. simpl.
    rewrite includes_first. unfold write_slot. simpl. by rewrite is_at_first. }
  assert (matchData s3 =
            <[c := MatchData (Some x) (Some y) [id P1; id P2]]> (matchData s2))
    as H3.
  { unfold s3. rewrite (on_interaction_submit _ _ _ _ _ _ HS2), H2,
      lookup_insert_eq. simpl.
    rewrite includes_second. unfold write_slot. simpl.
    by rewrite (is_at_second _ _ Hne). }
  rewrite (reveal_discloses iR E3 s3 c
             (MatchData (Some x) (Some y) [id P1; id P2]) x y HR);
    [|by rewrite H3, lookup_insert_eq|done..].
  simpl. rewrite H3, H2, H1, !delete_insert_eq. by apply delete_id.
Qed.

Lemma X12_lifecycle_restores_registry_witness :
  matchData
    (on_interaction (slash "reveal" bob "chan1" None None) quiet both_in)
    = matchData initial.
Proof.
  pose proof (X12_lifecycle_restores_registry "chan1" alice bob "X" "Y" initial
                (slash "startmatch" alice "lobby" (Some bob) None)
                (slash "submit" alice "chan1" None (Some "X"))
                (slash "submit" bob "chan1" None (Some "Y"))
                (slash "reveal" bob "chan1" None None)
                quiet quiet quiet quiet quiet) as H.
  premises H. exact (proj1 H).
Defined.

(** X13. A typed submission is captured whatever happens to the scrub.
    For a message of a participant that is not a bot, the value is in the
    slot before any call is made and stays there; the first call asks for
    the message to be deleted; the channel is told the choice is hidden
    only after the deletion was accepted; when the deletion is rejected
    the failure is logged and the channel is told the message could not
    be deleted.  The handler itself fails only if that last notice is
    rejected too. *)
Theorem X13_capture_survives_scrub msg E s c u d :
  bot (author msg) = false ->
  m_channelId msg = c -> id (author msg) = u ->
  matchData s !! c = Some d -> u ∈ ids d ->
  let delete_it := msg_delete c (m_id msg) in
  let hidden := channel_send c (Content
    (username (author msg) +:+ " has submitted their choice (hidden).")) in
  let kept := channel_send c (Content
    (username (author msg) +:+
     " has submitted their choice, but I could not delete their message. Please make sure I have the **Manage Messages** permission.")) in
  matchData (on_message msg E s)
    = <[c := message_write d u (content msg)]> (matchData s) ∧
  head (attempted (on_message msg E s)) = Some delete_it ∧
  ((hidden, true) ∈ trace (on_message msg E s) -> rejects E delete_it = false) ∧
  (rejects E delete_it = true ->
   attempted (on_message msg E s)
     = [delete_it; console_error "Failed to delete message:"; kept]) ∧
  ((messageCreate msg E (fresh s)).1 = Throw -> rejects E kept = true).
Proof.
  intros Hbot <- <- Hd Hu delete_it hidden kept.
  assert (includes (ids d) (id (author msg)) = true) as Hin
    by (by apply bool_decide_eq_true_2).
  split; [|split; [|split; [|split]]].
  - by rewrite on_message_store, Hbot, Hd, Hin.
  - rewrite on_message_store, Hbot, Hd, Hin. unfold attempted, scrub_trace.
    simpl. by repeat case_match.
  - rewrite on_message_store, Hbot, Hd, Hin. unfold scrub_trace, answered.
    simpl. fold delete_it hidden kept.
    destruct (rejects E delete_it); [|done].
    intros Hmem. trace_inv Hmem.
  - intros Hdel. rewrite on_message_store, Hbot, Hd, Hin.
    unfold attempted, scrub_trace. simpl. fold delete_it. by rewrite Hdel.
  - js_unfold. rewrite Hbot. simpl. rewrite Hd, Hin. simpl.
    fold delete_it hidden kept.
    destruct (rejects E delete_it); simpl.
    + by destruct (rejects E kept).
    + destruct (rejects E hidden); simpl; [|done].
      by destruct (rejects E kept).
Qed.

(** X13 for bob's message when the platform rejects every send. *)
Lemma X13_capture_survives_scrub_witness :
  matchData (on_message (Message "m1" bob "chan1" "Y") send_rejected one_in)
    = <["chan1" := message_write (MatchData (Some "X") None ["1"; "2"]) "2" "Y"]>
        (matchData one_in).
Proof.
  pose proof (X13_capture_survives_scrub (Message "m1" bob "chan1" "Y")
                send_rejected one_in "chan1" "2"
                (MatchData (Some "X") None ["1"; "2"])) as H.
  do 4 (lapply H; [clear H; intros H | by_evaluation]).
  lapply H; [clear H; intros H
            | simpl; apply list_elem_of_further, list_elem_of_here].
  exact (proj1 H).
Defined.

(** X14. What escapes the interaction handler.  Whatever the interaction
    and the platform's answers, the handler never ends on an exception:
    every rejected call it awaits is caught, logged and reported.  Its
    promise rejects only when a call it returns without awaiting, an
    interaction reply or edit, is rejected, and that call is then the last
    one it made. *)
Theorem X14_handler_completion (i : interaction) (E : env) (s : store) :
  (interactionCreate i E (fresh s)).1 ≠ Throw ∧
  ((interactionCreate i E (fresh s)).1 = Reject ->
   ∃ e, is_interaction_answer e = true ∧ rejects E e = true ∧
        last (trace (on_interaction i E s)) = Some (e, false)).
Proof.
  destruct (isChatInputCommand i) eqn:Hc; last first.
  { js_unfold. by rewrite Hc. }
  destruct (decide (commandName i = "startmatch")) as [Hn|Hn1].
  { js_unfold. rewrite Hc, Hn. simpl.
    js_cases; (split; [done|]); intros; try done; eexists; by repeat split. }
  destruct (decide (commandName i = "submit")) as [Hn|Hn2].
  { js_unfold. rewrite Hc, Hn. simpl.
    js_cases; (split; [done|]); intros; try done; eexists; by repeat split. }
  destruct (decide (commandName i = "reveal")) as [Hn|Hn3].
  { js_unfold. rewrite Hc, Hn. simpl.
    js_cases; (split; [done|]); intros; try done; eexists; by repeat split. }
  js_unfold. rewrite Hc. simpl. by rewrite !bool_decide_eq_false_2 by done.
Qed.

(** X15. A thread the bot never created hosts no match.  From the start
    of the process, after any run of events in which no thread with id [c]
    was created, [/submit] and [/reveal] typed in [c] answer NoSuchMatch
    and change nothing, and a message typed there is neither recorded nor
    deleted. *)
Theorem X15_unknown_thread evs c iS iR msg u v E1 E2 E3 :
  never_creates c evs ->
  submit_request iS c u v -> reveal_request iR c -> m_channelId msg = c ->
  let s := run evs initial in
  on_interaction iS E1 s =
    Store (matchData s) (timers s) false
      [answered E1 (reply (submit_notice NoSuchMatch))] ∧
  on_interaction iR E2 s =
    Store (matchData s) (timers s) false
      [answered E2 (reply reveal_NoSuchMatch)] ∧
  on_message msg E3 s = fresh s.
Proof.
  intros Hno HS HR Hm s.
  assert (matchData s !! c = None) as Hc.
  { apply run_absent; [done|]. simpl. apply lookup_empty. }
  rewrite (on_interaction_submit _ _ _ _ _ _ HS),
    (on_interaction_reveal _ _ _ _ HR), on_message_store, Hm, Hc.
  by destruct (bot _).
Qed.

(** X15 for a second channel while the sample match runs in [chan1]. *)
Lemma X15_unknown_thread_witness :
  on_message (Message "m9" carol "lobby" "hello") quiet
    (run [(InteractionCreate (slash "startmatch" alice "lobby" (Some bob) None), quiet);
          (InteractionCreate (slash "submit" alice "chan1" None (Some "X")), quiet)]
       initial)
    = fresh
        (run [(InteractionCreate (slash "startmatch" alice "lobby" (Some bob) None), quiet);
              (InteractionCreate (slash "submit" alice "chan1" None (Some "X")), quiet)]
           initial).
Proof.
  pose proof (X15_unknown_thread
                [(InteractionCreate (slash "startmatch" alice "lobby" (Some bob) None), quiet);
                 (InteractionCreate (slash "submit" alice "chan1" None (Some "X")), quiet)]
                "lobby"
                (slash "submit" carol "lobby" None (Some "Z"))
                (slash "reveal" carol "lobby" None None)
                (Message "m9" carol "lobby" "hello") "3" "Z" quiet quiet quiet)
    as H.
  lapply H; [clear H; intros H | repeat constructor].
  premises H. exact (proj2 (proj2 H)).
Defined.

(** X16. The two ways of submitting overwrite each other.  In a reachable
    state, for a participant that is not a bot, a value typed in the thread
    after a [/submit] replaces the submitted one, and a [/submit] after a
    typed value replaces the typed one: either way the slot holds the later
    value and the other slot is untouched. *)
Theorem X16_paths_overwrite_each_other i msg s c u d v1 v2 E1 E2 E3 E4 :
  reachable s ->
  matchData s !! c = Some d -> u ∈ ids d ->
  submit_request i c u v1 ->
  submit_message msg c u v2 -> bot (author msg) = false ->
  matchData (on_message msg E2 (on_interaction i E1 s)) !! c
    = Some (write_slot d u v2) ∧
  matchData (on_interaction i E4 (on_message msg E3 s)) !! c
    = Some (write_slot d u v1).
Proof.
  intros Hreach Hd Hu Hi (Hmc & Hmu & Hmv) Hbot.
  pose proof (reachable_ids_length _ _ _ Hreach Hd) as Hlen.
  assert (includes (ids d) u = true) as Hin by (by apply bool_decide_eq_true_2).
  split.
  - rewrite on_message_store, Hbot, Hmc, Hmu, Hmv.
    rewrite (on_interaction_submit _ _ _ _ _ _ Hi), Hd, Hin. simpl.
    rewrite lookup_insert_eq.
    rewrite (message_write_slot (write_slot d u v1))
      by (by rewrite write_slot_ids).
    rewrite write_slot_ids, Hin. simpl.
    by rewrite lookup_insert_eq, write_slot_twice.
  - rewrite (on_interaction_submit _ _ _ _ _ _ Hi).
    rewrite on_message_store, Hbot, Hmc, Hmu, Hmv, Hd, Hin. simpl.
    rewrite lookup_insert_eq, message_write_slot by done.
    rewrite write_slot_ids, Hin. simpl.
    by rewrite lookup_insert_eq, write_slot_twice.
Qed.

Lemma X16_paths_overwrite_each_other_witness :
  matchData
    (on_message (Message "m1" alice "chan1" "paper") send_rejected
       (on_interaction (slash "submit" alice "chan1" None (Some "rock")) quiet
          started)) !! "chan1"
    = Some (write_slot (MatchData None None ["1"; "2"]) "1" "paper").
Proof.
  pose proof (X16_paths_overwrite_each_other
                (slash "submit" alice "chan1" None (Some "rock"))
                (Message "m1" alice "chan1" "paper") started "chan1" "1"
                (MatchData None None ["1"; "2"]) "rock" "paper"
                quiet send_rejected quiet quiet reachable_started) as H.
  lapply H; [clear H; intros H | by_evaluation].
  lapply H; [clear H; intros H | simpl; apply list_elem_of_here].
  premises H. exact (proj1 H).
Defined.

(** X22. The participants of a match are fixed at its creation.  Every
    record of a reachable registry has exactly two participant ids, and
    after any run of events (submissions by command or message, reveals,
    expiries, matches in other threads) that creates no thread with the
    record's key, the record, if still there, has the same [ids]. *)
Theorem X22_participants_fixed s c d evs :
  reachable s ->
  matchData s !! c = Some d ->
  never_creates c evs ->
  length (ids d) = 2 ∧
  ∀ d', matchData (run evs s) !! c = Some d' -> ids d' = ids d.
Proof.
  intros Hreach Hd Hno. split; [by eapply reachable_ids_length|].
  intros d' Hd'. destruct (run_lookup _ _ _ _ Hno Hd') as (d0 & Hd0 & ->).
  congruence.
Qed.

(** X22 on the sample match. *)
Lemma X22_participants_fixed_witness :
  length (ids (MatchData (Some "X") None ["1"; "2"])) = 2 ∧
  ∀ d',
    matchData
      (run [(InteractionCreate (slash "submit" bob "chan1" None (Some "Y")), quiet);
            (MessageCreate (Message "m1" alice "chan1" "W"), send_rejected)]
         one_in) !! "chan1" = Some d' ->
    ids d' = ids (MatchData (Some "X") None ["1"; "2"]).
Proof.
  apply (X22_participants_fixed one_in "chan1"
           (MatchData (Some "X") None ["1"; "2"])).
  - exact reachable_one_in.
  - vm_compute; reflexivity.
  - repeat constructor.
Defined.

(* --------------------------------------------------------------------- *)
(* 10. Start-up                                                          *)
(* --------------------------------------------------------------------- *)

Lemma String_split_cons sep s : ∃ piece pieces, String_split sep s = piece :: pieces.
Proof.
  induction s as [|c s (piece & pieces & IH)]; simpl; [by eauto|].
  destruct (N.eqb c sep); [by eauto|]. rewrite IH. by eauto.
Qed.

Lemma String_split_comma_free s :
  Forall (fun piece => comma_free piece = true) (String_split comma s).
Proof.
  induction s as [|c s IH]; simpl; [by repeat constructor|].
  destruct (N.eqb c comma) eqn:Hc; [by constructor|].
  destruct (String_split comma s) as [|piece pieces]; simpl.
  - repeat constructor. simpl. by rewrite Hc.
  - apply Forall_cons in IH as [Hpiece Hpieces]. constructor; [|done].
    simpl. by rewrite Hc.
Qed.

Lemma String_split_whole s : comma_free s = true -> String_split comma s = [s].
Proof.
  induction s as [|c s IH]; simpl; [done|].
  intros [Hc Hs]%andb_true_iff. apply negb_true_iff in Hc.
  by rewrite Hc, IH.
Qed.

Lemma String_split_app s t :
  comma_free s = true ->
  String_split comma (s ++ comma :: t) = s :: String_split comma t.
Proof.
  induction s as [|c s IH]; simpl; [done|].
  intros [Hc Hs]%andb_true_iff. apply negb_true_iff in Hc.
  by rewrite Hc, IH.
Qed.

Lemma String_split_join l :
  l ≠ [] -> Forall (fun g => comma_free g = true) l ->
  String_split comma (Array_join comma l) = l.
Proof.
  induction l as [|g l IH]; [done|]. intros _ [Hg Hl]%Forall_cons.
  destruct l as [|g' l].
  - by apply String_split_whole.
  - change (Array_join comma (g :: g' :: l))
      with (g ++ comma :: Array_join comma (g' :: l)).
    rewrite String_split_app by done. f_equal. by apply IH.
Qed.

Lemma trimStart_length s : (length (trimStart s) ≤ length s)%nat.
Proof. induction s as [|c s IH]; simpl; [done|]. destruct (WhiteSpace c); simpl; lia. Qed.

Lemma trimStart_fixed c s : trimStart (c :: s) = c :: s -> WhiteSpace c = false.
Proof.
  simpl. destruct (WhiteSpace c); [|done]. intros Heq.
  pose proof (trimStart_length s) as Hlen. rewrite Heq in Hlen. simpl in Hlen. lia.
Qed.

Lemma trimStart_idemp s : trimStart (trimStart s) = trimStart s.
Proof.
  induction s as [|c s IH]; simpl; [done|].
  destruct (WhiteSpace c) eqn:Hc; [done|]. simpl. by rewrite Hc.
Qed.

Lemma trimEnd_idemp s : trimEnd (trimEnd s) = trimEnd s.
Proof.
  induction s as [|c s IH]; simpl; [done|].
  destruct (trimEnd s) as [|c' t] eqn:Ht.
  - destruct (WhiteSpace c) eqn:Hc; simpl; [done|]. by rewrite Hc.
  - simpl in *. by rewrite IH.
Qed.

Lemma trimStart_trimEnd s : trimStart s = s -> trimStart (trimEnd s) = trimEnd s.
Proof.
  destruct s as [|c s]; [done|]. intros Hc%trimStart_fixed. simpl.
  destruct (trimEnd s); rewrite ?Hc; simpl; by rewrite Hc.
Qed.

Lemma trim_idemp s : trim (trim s) = trim s.
Proof.
  unfold trim. rewrite trimStart_trimEnd by apply trimStart_idemp.
  apply trimEnd_idemp.
Qed.

(** What [trim] returns begins and ends with a code unit that is not
    white space. *)
Lemma trimEnd_last s u : last (trimEnd s) = Some u -> WhiteSpace u = false.
Proof.
  induction s as [|c s IH]; simpl; [done|].
  destruct (trimEnd s) as [|c' t].
  - destruct (WhiteSpace c) eqn:Hc; simpl; [done|]. by intros [= <-].
  - intros Hlast. apply IH. by destruct t.
Qed.

Lemma trim_head s u : head (trim s) = Some u -> WhiteSpace u = false.
Proof.
  unfold trim. pose proof (trimStart_trimEnd _ (trimStart_idemp s)) as Hfix.
  destruct (trimEnd (trimStart s)) as [|c t]; [done|].
  intros [= <-]. by apply trimStart_fixed in Hfix.
Qed.

Lemma trimStart_comma_free s : comma_free s = true -> comma_free (trimStart s) = true.
Proof.
  induction s as [|c s IH]; simpl; [done|].
  intros [Hc Hs]%andb_true_iff. destruct (WhiteSpace c); [by apply IH|].
  simpl. by rewrite Hc, Hs.
Qed.

Lemma trimEnd_comma_free s : comma_free s = true -> comma_free (trimEnd s) = true.
Proof.
  induction s as [|c s IH]; simpl; [done|].
  intros [Hc Hs]%andb_true_iff. specialize (IH Hs).
  destruct (trimEnd s); simpl in *.
  - destruct (WhiteSpace c); simpl; [done|]. by rewrite Hc.
  - by rewrite Hc, IH.
Qed.

Lemma trim_comma_free s : comma_free s = true -> comma_free (trim s) = true.
Proof. intros Hs. by apply trimEnd_comma_free, trimStart_comma_free. Qed.

Lemma comma_free_spec s : comma_free s = true -> comma ∉ s.
Proof.
  induction s as [|c s IH]; simpl; [intros _ ?%elem_of_nil; done|].
  intros [Hc Hs]%andb_true_iff. apply negb_true_iff, N.eqb_neq in Hc.
  intros [?|?]%elem_of_cons; [congruence|by apply IH].
Qed.

Lemma String_split_blank s :
  blank_list s = true ->
  Forall (fun piece => trim piece = []) (String_split comma s).
Proof.
  induction s as [|c s IH]; simpl; [by repeat constructor|].
  intros [Hc Hs]%andb_true_iff. specialize (IH Hs).
  destruct (N.eqb c comma) eqn:Hcomma; [by constructor|].
  simpl in Hc.
  destruct (String_split_cons comma s) as (piece & pieces & Hsplit).
  rewrite Hsplit in *. apply Forall_cons in IH as [Hpiece Hpieces].
  constructor; [|done]. unfold trim in *. simpl. by rewrite Hc.
Qed.

(** X17. Whatever the two variables hold, every guild id the bot
    registers its commands for is non-empty, has no comma, and begins and
    ends with a code unit that is not white space: trimming it again
    changes nothing. *)
Theorem X17_guild_ids_clean (env : process_env) (g : code_units) :
  g ∈ guild_ids env ->
  g ≠ [] ∧ (comma ∉ g) ∧ trim g = g ∧
  (∀ u, head g = Some u -> WhiteSpace u = false) ∧
  (∀ u, last g = Some u -> WhiteSpace u = false).
Proof.
  unfold guild_ids. intros [Hne Hin]%list_elem_of_filter.
  apply list_elem_of_fmap in Hin as (piece & -> & Hpiece).
  split; [done|]. split; [|split; [apply trim_idemp|split]].
  - apply comma_free_spec, trim_comma_free.
    pose proof (String_split_comma_free
      match MULTI_GUILD_IDS env with
      | Some m => m
      | None => match GUILD_ID env with Some g => g | None => [] end
      end) as Hall.
    rewrite Forall_forall in Hall. by apply Hall.
  - apply trim_head.
  - apply trimEnd_last.
Qed.

(** X17 for a list written with ordinary and no-break spaces. *)
Lemma X17_guild_ids_clean_witness :
  units "34" ≠ [] ∧ (comma ∉ units "34") ∧ trim (units "34") = units "34" ∧
  (∀ u, head (units "34") = Some u -> WhiteSpace u = false) ∧
  (∀ u, last (units "34") = Some u -> WhiteSpace u = false).
Proof.
  apply (X17_guild_ids_clean
           (ProcessEnv (Some (units "1"))
              (Some (160%N :: units "12 , 34" ++ [12288%N; comma; comma]
                       ++ units " 5 6 ,"))
              (Some (units "9")) None)).
  vm_compute. apply list_elem_of_further, list_elem_of_here.
Defined.

Lemma filter_clean (l : list code_units) :
  Forall (fun g => g ≠ [] ∧ (comma ∉ g) ∧ trim g = g) l ->
  filter (fun s => s ≠ []) (trim <$> l) = l.
Proof.
  induction l as [|g l IH]; [done|]. intros [(Hne & _ & Hg) Hl]%Forall_cons.
  rewrite fmap_cons, Hg, filter_cons_True by done. by rewrite IH.
Qed.

Lemma comma_free_intro s : comma ∉ s -> comma_free s = true.
Proof.
  induction s as [|c s IH]; simpl; [done|]. intros Hn.
  apply andb_true_iff. split.
  - apply negb_true_iff, N.eqb_neq. intros ->. apply Hn, list_elem_of_here.
  - apply IH. intros ?. by apply Hn, list_elem_of_further.
Qed.

(** X18. A list of guild ids written the expected way is read back as it
    is: for ids that are non-empty, have no comma and no white space at
    either end, joining them with commas into [MULTI_GUILD_IDS] (or into
    [GUILD_ID] when the former is not set) yields exactly those ids, in
    order. *)
Theorem X18_guild_ids_of_join (l : list code_units)
    (client token other : option code_units) :
  Forall (fun g => g ≠ [] ∧ (comma ∉ g) ∧ trim g = g) l ->
  guild_ids (ProcessEnv client (Some (Array_join comma l)) other token) = l ∧
  guild_ids (ProcessEnv client None (Some (Array_join comma l)) token) = l.
Proof.
  intros Hl. unfold guild_ids. simpl.
  destruct l as [|g l]; [done|].
  rewrite String_split_join; [by rewrite filter_clean| done |].
  eapply Forall_impl; [exact Hl|]. intros ? (_ & ? & _).
  by apply comma_free_intro.
Qed.

Lemma X18_guild_ids_of_join_witness :
  guild_ids (ProcessEnv (Some (units "1")) (Some (units "12,34"))
               (Some (units "9")) None)
    = [units "12"; units "34"].
Proof.
  apply (X18_guild_ids_of_join [units "12"; units "34"] (Some (units "1")) None
           (Some (units "9"))).
  repeat constructor; try discriminate; try reflexivity;
    vm_compute; intros Hin;
    repeat (apply elem_of_cons in Hin as [Hin|Hin]; [discriminate Hin|]);
    by apply elem_of_nil in Hin.
Defined.

(** X19. [MULTI_GUILD_IDS] hides [GUILD_ID] as soon as it is set.  When it
    holds nothing but commas and white space (the empty string is the first
    case), no guild id is read, whatever [GUILD_ID] names, and with a client
    id the commands are registered globally with one call. *)
Theorem X19_blank_list_registers_globally env m client rejected :
  MULTI_GUILD_IDS env = Some m -> blank_list m = true ->
  CLIENT_ID env = Some client -> client ≠ [] ->
  guild_ids env = [] ∧
  (registerCommands env rejected).1.*1 = [rest_put_global client commands]
    ++ (if rejected (rest_put_global client commands) then []
        else [console_log "Registered GLOBAL commands" []]).
Proof.
  intros Hm Hblank Hclient Hne.
  assert (guild_ids env = []) as Hids.
  { unfold guild_ids. rewrite Hm.
    pose proof (String_split_blank m Hblank) as Hall.
    induction Hall as [|piece pieces Hpiece _ IH]; [done|].
    rewrite fmap_cons, Hpiece. by rewrite filter_cons_False by auto. }
  split; [done|].
  unfold registerCommands. rewrite Hclient, Hids. simpl.
  destruct client; [done|]. simpl.
  by destruct (rejected _).
Qed.

(** X19 for a list made of a no-break space, a comma and an ideographic
    space. *)
Lemma X19_blank_list_registers_globally_witness :
  guild_ids (ProcessEnv (Some (units "1")) (Some [160; comma; 12288]%N)
               (Some (units "9")) None) = [].
Proof.
  pose proof (X19_blank_list_registers_globally
                (ProcessEnv (Some (units "1")) (Some [160; comma; 12288]%N)
                   (Some (units "9")) None)
                [160; comma; 12288]%N (units "1") (fun _ => false)) as H.
  premises H. exact (proj1 H).
Defined.

Lemma put_guilds_cons rejected client gid gids :
  put_guilds rejected client (gid :: gids) =
    if rejected (rest_put_guild client gid commands)
    then ([(rest_put_guild client gid commands, false)], false)
    else ((rest_put_guild client gid commands, true)
            :: (console_log "Registered GUILD commands for" [gid], true)
            :: (put_guilds rejected client gids).1,
          (put_guilds rejected client gids).2).
Proof. done. Qed.

(** The loop over the guild ids: it runs to its end with every call
    accepted, or stops on the first rejected registration. *)
Lemma put_guilds_cases rejected client gids :
  ((put_guilds rejected client gids).2 = true ∧
   Forall (fun p => p.2 = true ∧ is_login p = false)
     (put_guilds rejected client gids).1 ∧
   omap put_guild_of (put_guilds rejected client gids).1 = gids) ∨
  ((put_guilds rejected client gids).2 = false ∧
   ∃ pre g rest,
     gids = omap put_guild_of pre ++ g :: rest ∧
     rejected (rest_put_guild client g commands) = true ∧
     (put_guilds rejected client gids).1
       = pre ++ [(rest_put_guild client g commands, false)] ∧
     Forall (fun p => p.2 = true ∧ is_login p = false) pre).
Proof.
  induction gids as [|gid gids IH].
  { left. by repeat split. }
  rewrite put_guilds_cons.
  destruct (rejected (rest_put_guild client gid commands)) eqn:Hrej.
  { right. split; [done|]. by exists [], gid, gids. }
  destruct IH as [(Hok & Hall & Hids) | (Hko & pre & g & rest & Hgids & Hg & Hpre & Hall)].
  - left. split; [done|]. split; [by repeat constructor|].
    simpl. f_equal. exact Hids.
  - right. split; [done|].
    exists ((rest_put_guild client gid commands, true)
              :: (console_log "Registered GUILD commands for" [gid], true)
              :: pre), g, rest.
    repeat split; [|done| |by repeat constructor].
    + simpl. f_equal. exact Hgids.
    + simpl. by rewrite Hpre.
Qed.

(** X20. How a start-up ends.  Either the client id is missing or empty:
    nothing is asked of the platform, the error is logged and the process
    exits with code 1.  Or some call is rejected: every call before it was
    accepted, and it is followed at once by the error log and the exit,
    with no further registration and no login after it.  Or every
    registration is accepted and the last call is the accepted login: the
    process does not exit. *)
Theorem X20_startup_ends (env : process_env)
    (rejected : startup_call -> bool) :
  let tr := startup env rejected in
  let failed :=
    [(startup_console_error "Startup error:", true); (process_exit 1, true)] in
  (truthy_units (CLIENT_ID env) = false ∧ tr = failed) ∨
  (∃ pre call,
     truthy_units (CLIENT_ID env) = true ∧ rejected call = true ∧
     tr = pre ++ (call, false) :: failed ∧
     Forall (fun p => p.2 = true ∧ is_login p = false) pre) ∨
  (∃ pre,
     truthy_units (CLIENT_ID env) = true ∧
     tr = pre ++ [(client_login (DISCORD_TOKEN env), true)] ∧
     Forall (fun p => p.2 = true ∧ is_login p = false) pre).
Proof.
  intros tr failed. unfold tr, startup. fold failed.
  unfold registerCommands.
  destruct (truthy_units (CLIENT_ID env)) eqn:Hclient; simpl; [|by left].
  right.
  set (client := default [] (CLIENT_ID env)).
  set (login := client_login (DISCORD_TOKEN env)).
  assert (∀ pre,
    Forall (fun p => p.2 = true ∧ is_login p = false) pre ->
    (∃ pre' call, rejected call = true ∧
       (if rejected login then pre ++ (login, false) :: failed
        else pre ++ [(login, true)]) = pre' ++ (call, false) :: failed ∧
       Forall (fun p => p.2 = true ∧ is_login p = false) pre') ∨
    (∃ pre', (if rejected login then pre ++ (login, false) :: failed
              else pre ++ [(login, true)]) = pre' ++ [(login, true)] ∧
       Forall (fun p => p.2 = true ∧ is_login p = false) pre')) as Hlogin.
  { intros pre Hpre. destruct (rejected login) eqn:Hrej.
    - left. by exists pre, login.
    - right. by exists pre. }
  destruct (0 <? length (guild_ids env))%nat.
  - destruct (put_guilds_cases rejected client (guild_ids env))
      as [(Hok & Hall & _) | (Hko & pre & g & rest & _ & Hg & Hpre & Hall)].
    + rewrite Hok. destruct (Hlogin _ Hall) as [(p & c & ? & ? & ?) | (p & ? & ?)].
      * left. by exists p, c.
      * right. by exists p.
    + rewrite Hko, Hpre. left.
      exists pre, (rest_put_guild client g commands).
      repeat split; [done| |done]. by rewrite <- app_assoc.
  - destruct (rejected (rest_put_global client commands)) eqn:Hrej; simpl.
    + left. by exists [], (rest_put_global client commands).
    + destruct (Hlogin [(rest_put_global client commands, true);
                        (console_log "Registered GLOBAL commands" [], true)])
        as [(p & c & ? & ? & ?) | (p & ? & ?)]; [by repeat constructor| |].
      * left. by exists p, c.
      * right. by exists p.
Qed.

Lemma omap_put_guild_snoc pre call :
  put_guild_of call = None ->
  omap put_guild_of (pre ++ [call]) = omap put_guild_of pre.
Proof. intros Hc. rewrite omap_app. simpl. rewrite Hc. apply app_nil_r. Qed.

Lemma filter_accepted (l : list (startup_call * bool)) :
  Forall (fun p => p.2 = true ∧ is_login p = false) l ->
  filter (fun p => p.2 = true) l = l.
Proof.
  induction 1 as [|p l [Hp _] _ IH]; [done|].
  by rewrite filter_cons_True, IH by done.
Qed.

Lemma put_guilds_no_global rejected client gids :
  ¬ Exists (fun p => is_put_global p = true) (put_guilds rejected client gids).1.
Proof.
  induction gids as [|g l IH]; [by intros ?%Exists_nil|].
  rewrite put_guilds_cons. destruct (rejected _); simpl.
  - intros Hex. apply Exists_cons in Hex as [?|Hex]; [done|].
    by apply Exists_nil in Hex.
  - intros Hex. apply Exists_cons in Hex as [?|Hex]; [done|].
    apply Exists_cons in Hex as [?|Hex]; [done|]. by apply IH.
Qed.

(** X21. Which guilds get the commands.  The guild registrations of a
    start-up are made in the order of the ids read from the environment
    and stop at the first rejection, so the guilds registered are always a
    prefix of that list; the login is attempted only once every one of them
    has been registered; and the global registration is made only when no
    guild id was read. *)
Theorem X21_registration_in_order (env : process_env)
    (rejected : startup_call -> bool) :
  let tr := startup env rejected in
  omap put_guild_of tr `prefix_of` guild_ids env ∧
  (Exists (fun p => is_login p = true) tr ->
   omap put_guild_of (filter (fun p => p.2 = true) tr) = guild_ids env) ∧
  (Exists (fun p => is_put_global p = true) tr -> guild_ids env = []).
Proof.
  intros tr. unfold tr, startup, registerCommands.
  destruct (truthy_units (CLIENT_ID env)); simpl.
  2:{ split; [apply prefix_nil|].
      split; intros Hex; repeat (apply Exists_cons in Hex as [?|Hex]; [done|]);
        by apply Exists_nil in Hex. }
  set (client := default [] (CLIENT_ID env)).
  set (login := client_login (DISCORD_TOKEN env)).
  destruct (guild_ids env) as [|g0 gids] eqn:Hids; simpl length.
  { simpl. split.
    - destruct (rejected (rest_put_global _ _)); simpl;
        [|destruct (rejected login); simpl]; apply prefix_nil.
    - split; [|done]. intros _.
      destruct (rejected (rest_put_global _ _)); simpl;
        [|destruct (rejected login); simpl]; done. }
  change (0 <? S (length gids))%nat with true. cbv iota.
  pose proof (put_guilds_no_global rejected client (g0 :: gids)) as Hglobal.
  destruct (put_guilds_cases rejected client (g0 :: gids))
    as [(Hok & Hall & Hput) | (Hko & pre & g & rest & Hgids & Hg & Hpre & Hall)];
    set (r := put_guilds rejected client (g0 :: gids)) in *; clearbody r.
  - rewrite Hok. pose proof (filter_accepted _ Hall) as Hfilter.
    assert (∀ tail,
      omap put_guild_of tail = [] ->
      ¬ Exists (fun p => is_put_global p = true) tail ->
      omap put_guild_of (filter (fun p => p.2 = true) tail) = [] ->
      omap put_guild_of (r.1 ++ tail) `prefix_of` g0 :: gids ∧
      (Exists (fun p => is_login p = true) (r.1 ++ tail) ->
       omap put_guild_of (filter (fun p => p.2 = true) (r.1 ++ tail)) = g0 :: gids) ∧
      (Exists (fun p => is_put_global p = true) (r.1 ++ tail) -> g0 :: gids = []))
      as Htail.
    { intros tail Ht1 Ht2 Ht3. repeat split.
      - by rewrite omap_app, Hput, Ht1, app_nil_r.
      - intros _. by rewrite filter_app, omap_app, Hfilter, Hput, Ht3, app_nil_r.
      - intros Hex. apply Exists_app in Hex as [Hex|Hex]; done. }
    destruct (rejected login); apply Htail; try done;
      intros Hex; repeat (apply Exists_cons in Hex as [?|Hex]; [done|]);
      by apply Exists_nil in Hex.
  - rewrite Hko, Hpre. rewrite <- app_assoc. cbv iota. repeat split.
    + rewrite omap_app, Hgids. apply prefix_app. simpl.
      apply prefix_cons, prefix_nil.
    + intros Hex. apply Exists_app in Hex as [Hex|Hex].
      * rewrite Exists_exists in Hex. destruct Hex as (p & Hp & Hlog).
        rewrite Forall_forall in Hall. destruct (Hall p Hp). congruence.
      * repeat (apply Exists_cons in Hex as [?|Hex]; [done|]).
        by apply Exists_nil in Hex.
    + intros Hex. exfalso. rewrite Hpre in Hglobal. apply Hglobal.
      apply Exists_app in Hex as [Hex|Hex].
      * apply Exists_app. by left.
      * repeat (apply Exists_cons in Hex as [?|Hex]; [done|]).
        by apply Exists_nil in Hex.
Qed.
